(** * Unidling controller and idle-status controller of ovn-kubernetes

    A shallow embedding of
    [go-controller/pkg/ovn/controller/unidling/unidle.go]: the VIP registry
    and the empty-backends event bridge ([unidlingController]) and the
    idle-status state machine with its grace-period queue
    ([idleStatusController]).

    Go maps are [gmap]s, a possibly-nil map is an [option] of a [gmap],
    [time.Duration] is an integer number of nanoseconds, and the Go
    interfaces the controllers are built from ([kube.Interface],
    [ServiceLister], the OVN southbound client) are type classes. *)

From Stdlib Require Import ZArith Ascii String List.
From stdpp Require Import base option strings list gmap fin_maps.

Open Scope string_scope.

(** ** Errors *)

(** Go [error] values.  [ErrNotFound] is the API machinery's
    [StatusError] with reason [NotFound]; [ErrWrap] is
    [fmt.Errorf("...: %w", err)]. *)
Inductive error : Type :=
  | ErrNotFound (what : string)
  | ErrMsg (msg : string)
  | ErrWrap (msg : string) (cause : error).

Inductive result (A : Type) : Type :=
  | Ok (a : A)
  | Err (e : error).
Arguments Ok {A} a.
Arguments Err {A} e.

(** [apierrors.IsNotFound]. *)
Definition IsNotFound (e : error) : bool :=
  match e with
  | ErrNotFound _ => true
  | _ => false
  end.

(** ** Strings *)

(** [strings.HasSuffix]:
    [len(s) >= len(suffix) && s[len(s)-len(suffix):] == suffix]. *)
Definition HasSuffix (s suffix : string) : bool :=
  (String.length suffix <=? String.length s)%nat &&
  String.eqb
    (substring (String.length s - String.length suffix) (String.length suffix) s)
    suffix.

(** ASCII lower-casing, as [strings.ToLower] does on ASCII input.  The
    source never calls it; it only serves to state case-insensitive
    comparison. *)
Definition lower_ascii (c : ascii) : ascii :=
  let n := nat_of_ascii c in
  if ((65 <=? n) && (n <=? 90))%nat then ascii_of_nat (n + 32) else c.

Fixpoint ToLower (s : string) : string :=
  match s with
  | EmptyString => EmptyString
  | String c s' => String (lower_ascii c) (ToLower s')
  end.

(** [strings.Split(s, "/")], with the piece being read in [cur]. *)
Fixpoint split_slash_from (cur : string) (s : string) : list string :=
  match s with
  | EmptyString => [cur]
  | String c s' =>
      if Ascii.eqb c "/"%char
      then cur :: split_slash_from "" s'
      else split_slash_from (cur ++ String c "") s'
  end.

Definition split_slash (s : string) : list string := split_slash_from "" s.

(** Names without a slash, as the API server admits them. *)
Fixpoint no_slash (s : string) : bool :=
  match s with
  | EmptyString => true
  | String c s' => negb (Ascii.eqb c "/"%char) && no_slash s'
  end.

(** ** Kubernetes API objects ([k8s.io/api/core/v1]) *)

Module kapi.

(** [kapi.Protocol] is a string type. *)
Abbreviation Protocol := string.
Definition ProtocolTCP : Protocol := "TCP".
Definition ProtocolUDP : Protocol := "UDP".
Definition ProtocolSCTP : Protocol := "SCTP".

Record ServicePort := mkServicePort {
  Port : Z;
  PortProtocol : Protocol
}.

Record ServiceSpec := mkServiceSpec {
  Type_ : string;
  ClusterIP : string;
  ClusterIPs : list string;
  Ports : list ServicePort
}.

(** A [Service]; [Annotations = None] is the nil map. *)
Record Service := mkService {
  Namespace : string;
  Name : string;
  Annotations : option (gmap string string);
  Spec : ServiceSpec
}.

Definition withAnnotations (svc : Service) (a : option (gmap string string)) : Service :=
  mkService (Namespace svc) (Name svc) a (Spec svc).

(** [kapi.ObjectReference], the fields the controller fills. *)
Record ObjectReference := mkObjectReference {
  RefKind : string;
  RefNamespace : string;
  RefName : string
}.

End kapi.

(** Reading a Go map that may be nil: [v, ok := m[k]]. *)
Definition go_lookup (m : option (gmap string string)) (k : string) : option string :=
  match m with
  | None => None
  | Some m => m !! k
  end.

(** [types.NamespacedName]. *)
Record NamespacedName := mkNamespacedName {
  nnNamespace : string;
  nnName : string
}.

#[global] Instance NamespacedName_eq_dec : EqDecision NamespacedName.
Proof. solve_decision. Defined.

#[global] Instance NamespacedName_countable : Countable NamespacedName.
Proof.
  apply (inj_countable' (λ n, (nnNamespace n, nnName n))
                        (λ p, mkNamespacedName p.1 p.2)).
  by intros [].
Defined.

Definition refOf (svc : kapi.Service) : NamespacedName :=
  mkNamespacedName (kapi.Namespace svc) (kapi.Name svc).

(** [time.Duration], in nanoseconds. *)
Abbreviation Duration := Z.
Definition Second : Duration := 1000000000%Z.

(** ** Constants of the package *)

(** [type Status string]. *)
Abbreviation Status := string.

Definition StatusAnnotation : string := "k8s.ovn.org/idle-status".
Definition StatusIdle : Status := "Idle".
Definition StatusGracePeriod : Status := "GracePeriod".
Definition StatusNotIdle : Status := "NotIdle".
Definition GracePeriodDuration : Duration := (30 * Second)%Z.

Definition OvnServiceIdledSuffix : string := "idled-at".

(** ** [client-go] helpers the controllers call *)

(** [cache.MetaNamespaceKeyFunc] on a [Service]: ["namespace/name"], or
    the bare name when the namespace is empty.  It only fails on objects
    without metadata, so never here. *)
Definition MetaNamespaceKeyFunc (svc : kapi.Service) : result string :=
  if String.eqb (kapi.Namespace svc) ""
  then Ok (kapi.Name svc)
  else Ok (kapi.Namespace svc ++ "/" ++ kapi.Name svc).

(** [cache.SplitMetaNamespaceKey]. *)
Definition SplitMetaNamespaceKey (key : string) : result (string * string) :=
  match split_slash key with
  | [name] => Ok ("", name)
  | [namespace; name] => Ok (namespace, name)
  | _ => Err (ErrMsg ("unexpected key format: " ++ key))
  end.

(** ** Queries on a service *)

(** [hasIdleAt]; [None] is the nil pointer. *)
Definition hasIdleAt (svc : option kapi.Service) : bool :=
  match svc with
  | None => false
  | Some svc =>
      match kapi.Annotations svc with
      | None => false
      | Some annotations =>
          existsb (λ kv, HasSuffix kv.1 OvnServiceIdledSuffix)
                  (map_to_list annotations)
      end
  end.

(** [GetIdleStatus]. *)
Definition GetIdleStatus (svc : kapi.Service) : Status :=
  match kapi.Annotations svc with
  | None => StatusNotIdle
  | Some annotations =>
      match annotations !! StatusAnnotation with
      | None => StatusNotIdle
      | Some status => status
      end
  end.

(** ** The delaying work queue ([k8s.io/client-go/util/workqueue]) *)

Module workqueue.

(** The queue's state: [queue] holds the items ready for [Get], in
    order; [dirty] the items that need processing; [processing] the
    items handed out by [Get] and not yet marked done;
    [waitingForAdd] the items [AddAfter] put on hold, with their
    delays. *)
Record DelayingQueue := mkQueue {
  queue : list string;
  dirty : gset string;
  processing : gset string;
  waitingForAdd : list (string * Duration);
  shuttingDown : bool
}.

Definition NewDelayingQueue : DelayingQueue := mkQueue [] ∅ ∅ [] false.

(** [Add]: a shut-down queue and an item already marked dirty change
    nothing; an item being processed is only marked dirty. *)
Definition Add (q : DelayingQueue) (item : string) : DelayingQueue :=
  if shuttingDown q then q
  else if decide (item ∈ dirty q) then q
  else
    let dirty' := {[item]} ∪ dirty q in
    if decide (item ∈ processing q)
    then mkQueue (queue q) dirty' (processing q) (waitingForAdd q) (shuttingDown q)
    else mkQueue (queue q ++ [item]) dirty' (processing q) (waitingForAdd q) (shuttingDown q).

(** [AddAfter]: a delay that is not positive adds at once. *)
Definition AddAfter (q : DelayingQueue) (item : string) (duration : Duration) : DelayingQueue :=
  if shuttingDown q then q
  else if (duration <=? 0)%Z then Add q item
  else mkQueue (queue q) (dirty q) (processing q)
               (waitingForAdd q ++ [(item, duration)]) (shuttingDown q).

(** [Get]: [None] when the call blocks (nothing ready, not shut down);
    otherwise the queue left behind, the item and the [shutdown]
    flag. *)
Definition Get (q : DelayingQueue) : option (DelayingQueue * option string * bool) :=
  match queue q with
  | [] => if shuttingDown q then Some (q, None, true) else None
  | item :: rest =>
      Some (mkQueue rest (dirty q ∖ {[item]}) ({[item]} ∪ processing q)
                    (waitingForAdd q) (shuttingDown q),
            Some item, false)
  end.

End workqueue.

(** ** The OVN southbound database client ([libovsdb]) *)

Module sbdb.

Definition ControllerEventEventTypeEmptyLbBackends : string := "empty_lb_backends".

Record ControllerEvent := mkControllerEvent {
  UUID : string;
  EventType : string;
  EventInfo : gmap string string;
  SeqNum : Z
}.

End sbdb.

Module ovsdb.

Record Operation := mkOperation {
  Op : string;
  Table : string;
  WhereUUID : string
}.

Record OperationResult := mkOperationResult {
  Count : Z;
  Error : string
}.

End ovsdb.

(** The calls [handleLbEmptyBackendsEvent] makes on the southbound
    client, over the database state [S] behind it:
    [Where(&event).Delete()], [Transact(ctx, op...)] and
    [ovsdb.CheckOperationResults(result, op)]. *)
Class SBClient (S : Type) := {
  WhereDelete : S → sbdb.ControllerEvent → result (list ovsdb.Operation);
  Transact : S → list ovsdb.Operation → S * result (list ovsdb.OperationResult);
  CheckOperationResults :
    list ovsdb.OperationResult → list ovsdb.Operation → option error
}.

(** ** Helpers of package [util] *)

(** The four functions of [go-controller/pkg/util] the unidling
    controller derives a service's VIPs with; they read the service's
    spec only. *)
Class Util := {
  ServiceTypeHasClusterIP : kapi.ServiceSpec → bool;
  IsClusterIPSet : kapi.ServiceSpec → bool;
  GetClusterIPs : kapi.ServiceSpec → list string;
  JoinHostPortInt32 : string → Z → string
}.

(** ** The unidling controller *)

(** [ServiceVIPKey]: the load balancer VIP as ["ip:port"] and its
    protocol. *)
Record ServiceVIPKey := mkServiceVIPKey {
  vip : string;
  protocol : kapi.Protocol
}.

#[global] Instance ServiceVIPKey_eq_dec : EqDecision ServiceVIPKey.
Proof. solve_decision. Defined.

#[global] Instance ServiceVIPKey_countable : Countable ServiceVIPKey.
Proof.
  apply (inj_countable' (λ k, (vip k, protocol k))
                        (λ p, mkServiceVIPKey p.1 p.2)).
  by intros [].
Defined.

(** What [record.EventRecorder.Eventf] was called with. *)
Record RecordedEvent := mkRecordedEvent {
  evObject : kapi.ObjectReference;
  evType : string;
  evReason : string;
  evMessage : string
}.

(** What a watch callback is handed as [obj interface{}]: a service, a
    [cache.DeletedFinalStateUnknown] tombstone (around a service or
    around something else), or anything else. *)
Inductive WatchObj : Type :=
  | ObjService (svc : kapi.Service)
  | ObjTombstone (inner : option kapi.Service)
  | ObjOther.

(** [unidlingController].  [eventRecorder] is the list of events
    recorded so far, [sbClient] the database state behind the client,
    [handledErrors] what [utilruntime.HandleError] was given.  The
    [eventQueue] channel is left to the caller of the handlers. *)
Record unidlingController (S : Type) := mkUC {
  eventRecorder : list RecordedEvent;
  serviceVIPToName : gmap ServiceVIPKey NamespacedName;
  sbClient : S;
  uc_gracePeriodQueue : workqueue.DelayingQueue;
  uc_handledErrors : list error
}.
Arguments mkUC {S}.
Arguments eventRecorder {S}.
Arguments serviceVIPToName {S}.
Arguments sbClient {S}.
Arguments uc_gracePeriodQueue {S}.
Arguments uc_handledErrors {S}.

(** *** The first draft: VIP registry and event bridge *)

Module Unidling.

Section Controller.
Context `{!Util} {S : Type} `{!SBClient S}.

Definition uc_withVIPs (uc : unidlingController S)
    (m : gmap ServiceVIPKey NamespacedName) : unidlingController S :=
  mkUC (eventRecorder uc) m (sbClient uc) (uc_gracePeriodQueue uc) (uc_handledErrors uc).

Definition uc_withQueue (uc : unidlingController S)
    (q : workqueue.DelayingQueue) : unidlingController S :=
  mkUC (eventRecorder uc) (serviceVIPToName uc) (sbClient uc) q (uc_handledErrors uc).

Definition uc_withSB (uc : unidlingController S) (s : S) : unidlingController S :=
  mkUC (eventRecorder uc) (serviceVIPToName uc) s (uc_gracePeriodQueue uc) (uc_handledErrors uc).

Definition uc_Eventf (uc : unidlingController S) (e : RecordedEvent) : unidlingController S :=
  mkUC (eventRecorder uc ++ [e]) (serviceVIPToName uc) (sbClient uc)
       (uc_gracePeriodQueue uc) (uc_handledErrors uc).

Definition uc_HandleError (uc : unidlingController S) (e : error) : unidlingController S :=
  mkUC (eventRecorder uc) (serviceVIPToName uc) (sbClient uc)
       (uc_gracePeriodQueue uc) (uc_handledErrors uc ++ [e]).

(** [AddServiceVIPToName]. *)
Definition AddServiceVIPToName (uc : unidlingController S)
    (vip : string) (protocol : kapi.Protocol) (namespace name : string)
    : unidlingController S :=
  uc_withVIPs uc
    (<[mkServiceVIPKey vip protocol := mkNamespacedName namespace name]>
       (serviceVIPToName uc)).

(** [GetServiceVIPToName]. *)
Definition GetServiceVIPToName (uc : unidlingController S)
    (vip : string) (protocol : kapi.Protocol) : option NamespacedName :=
  serviceVIPToName uc !! mkServiceVIPKey vip protocol.

(** [DeleteServiceVIPToName]. *)
Definition DeleteServiceVIPToName (uc : unidlingController S)
    (vip : string) (protocol : kapi.Protocol) : unidlingController S :=
  uc_withVIPs uc (delete (mkServiceVIPKey vip protocol) (serviceVIPToName uc)).

(** [svc.Annotations[key] = value].  The controller only assigns where
    the map is known not to be nil. *)
Definition setAnnotation (svc : kapi.Service) (key value : string) : kapi.Service :=
  kapi.withAnnotations svc
    (Some (<[key := value]> (default ∅ (kapi.Annotations svc)))).

(** [alignIdleStatusAnnotation]: the controller, the service as the
    assignments leave it, and the error returned. *)
Definition alignIdleStatusAnnotation (uc : unidlingController S) (svc : kapi.Service)
    : unidlingController S * kapi.Service * option error :=
  let hasIdledAtAnnotation :=
    existsb (λ kv, HasSuffix kv.1 OvnServiceIdledSuffix)
            (map_to_list (default ∅ (kapi.Annotations svc))) in
  match go_lookup (kapi.Annotations svc) StatusAnnotation with
  | None =>
      if hasIdledAtAnnotation
      then (uc, setAnnotation svc StatusAnnotation StatusIdle, None)
      else (uc, svc, None)
  | Some statusAnnotation =>
      if String.eqb statusAnnotation StatusIdle then
        if hasIdledAtAnnotation then (uc, svc, None)
        else
          let svc' := setAnnotation svc StatusAnnotation StatusGracePeriod in
          match MetaNamespaceKeyFunc svc' with
          | Err e => (uc, svc', Some (ErrMsg "couldn't get key for service"))
          | Ok key =>
              (uc_withQueue uc
                 (workqueue.AddAfter (uc_gracePeriodQueue uc) key GracePeriodDuration),
               svc', None)
          end
      else if String.eqb statusAnnotation StatusNotIdle then
        if negb hasIdledAtAnnotation then (uc, svc, None)
        else (uc, setAnnotation svc StatusAnnotation StatusIdle, None)
      else if String.eqb statusAnnotation StatusGracePeriod then
        if negb hasIdledAtAnnotation then (uc, svc, None)
        else (uc, setAnnotation svc StatusAnnotation StatusIdle, None)
      else (uc, svc, None)
  end.

(** The nested loops of [onServiceAdd] and [onServiceDelete]: for each
    cluster IP, for each port. *)
Definition forEachVIP (spec : kapi.ServiceSpec)
    (body : unidlingController S → string → kapi.Protocol → unidlingController S)
    (uc : unidlingController S) : unidlingController S :=
  if ServiceTypeHasClusterIP spec && IsClusterIPSet spec then
    foldl (λ uc ip,
             foldl (λ uc svcPort,
                      body uc (JoinHostPortInt32 ip (kapi.Port svcPort))
                           (kapi.PortProtocol svcPort))
                   uc (kapi.Ports spec))
          uc (GetClusterIPs spec)
  else uc.

(** [onServiceAdd], with the service as [alignIdleStatusAnnotation]
    leaves it. *)
Definition onServiceAdd (uc : unidlingController S) (svc : kapi.Service)
    : unidlingController S * kapi.Service :=
  let uc :=
    forEachVIP (kapi.Spec svc)
      (λ uc vip protocol,
         AddServiceVIPToName uc vip protocol (kapi.Namespace svc) (kapi.Name svc))
      uc in
  let '(uc, svc, _) := alignIdleStatusAnnotation uc svc in
  (uc, svc).

(** [onServiceDelete]. *)
Definition onServiceDelete (uc : unidlingController S) (obj : WatchObj)
    : unidlingController S :=
  let deleteVIPs (svc : kapi.Service) :=
    forEachVIP (kapi.Spec svc)
      (λ uc vip protocol, DeleteServiceVIPToName uc vip protocol) uc in
  match obj with
  | ObjService svc => deleteVIPs svc
  | ObjTombstone (Some svc) => deleteVIPs svc
  | ObjTombstone None =>
      uc_HandleError uc (ErrMsg "tombstone contained object that is not a Service")
  | ObjOther =>
      uc_HandleError uc (ErrMsg "couldn't get object from tombstone")
  end.

(** The service handlers [NewController] registers: [AddFunc],
    [UpdateFunc] (delete the old object, add the new one) and
    [DeleteFunc]. *)
Inductive ServiceNotification : Type :=
  | NotifyAdd (svc : kapi.Service)
  | NotifyUpdate (old new : kapi.Service)
  | NotifyDelete (obj : WatchObj).

Definition serviceHandler (uc : unidlingController S) (n : ServiceNotification)
    : unidlingController S :=
  match n with
  | NotifyAdd svc => (onServiceAdd uc svc).1
  | NotifyUpdate old new =>
      (onServiceAdd (onServiceDelete uc (ObjService old)) new).1
  | NotifyDelete obj => onServiceDelete uc obj
  end.

(** The protocol [handleLbEmptyBackendsEvent] looks the VIP up with;
    a missing ["protocol"] reads as the empty string. *)
Definition eventProtocol (event : sbdb.ControllerEvent) : kapi.Protocol :=
  let proto := default "" (sbdb.EventInfo event !! "protocol") in
  if String.eqb proto "udp" then kapi.ProtocolUDP
  else if String.eqb proto "sctp" then kapi.ProtocolSCTP
  else kapi.ProtocolTCP.

(** The acknowledgement at the head of [handleLbEmptyBackendsEvent]:
    build the delete operation, transact it, check its results. *)
Definition deleteEvent (uc : unidlingController S) (event : sbdb.ControllerEvent)
    : unidlingController S * option error :=
  match WhereDelete (sbClient uc) event with
  | Err e => (uc, Some e)
  | Ok op =>
      let '(sb, r) := Transact (sbClient uc) op in
      let uc := uc_withSB uc sb in
      match r with
      | Err e => (uc, Some e)
      | Ok result => (uc, CheckOperationResults result op)
      end
  end.

Definition NeedPods (serviceName : NamespacedName) : RecordedEvent :=
  mkRecordedEvent
    (kapi.mkObjectReference "Service" (nnNamespace serviceName) (nnName serviceName))
    "Normal" "NeedPods"
    ("The service " ++ nnName serviceName ++ " needs pods").

(** [handleLbEmptyBackendsEvent]. *)
Definition handleLbEmptyBackendsEvent (uc : unidlingController S)
    (event : sbdb.ControllerEvent) : unidlingController S * option error :=
  match deleteEvent uc event with
  | (uc, Some err) => (uc, Some err)
  | (uc, None) =>
      match sbdb.EventInfo event !! "vip" with
      | None => (uc, None)
      | Some vip =>
          match GetServiceVIPToName uc vip (eventProtocol event) with
          | Some serviceName => (uc_Eventf uc (NeedPods serviceName), None)
          | None => (uc, None)
          end
      end
  end.

End Controller.

End Unidling.

(** ** The idle-status controller *)

(** [kube.Interface], the one method the controller calls, over the
    cluster state [K] behind the client: the state after the call and
    the error returned. *)
Class KubeInterface (K : Type) := {
  SetAnnotationsOnService :
    K → string → string → gmap string string → K * option error
}.

(** [v1.ServiceLister]: [Services(namespace).Get(name)]. *)
Class ServiceLister (K : Type) := {
  ServicesGet : K → string → string → result kapi.Service
}.

(** [idleStatusController].  [kube] is the cluster state that both the
    [kube] client writes and the [serviceLister] reads;
    [handledErrors] is what [utilruntime.HandleError] was given. *)
Record idleStatusController (K : Type) := mkISC {
  kube : K;
  gracePeriodQueue : workqueue.DelayingQueue;
  gracePeriod : Duration;
  handledErrors : list error
}.
Arguments mkISC {K}.
Arguments kube {K}.
Arguments gracePeriodQueue {K}.
Arguments gracePeriod {K}.
Arguments handledErrors {K}.

Module IdleStatus.

Section Controller.
Context {K : Type} `{!KubeInterface K} `{!ServiceLister K}.

Definition withKube (isc : idleStatusController K) (k : K) : idleStatusController K :=
  mkISC k (gracePeriodQueue isc) (gracePeriod isc) (handledErrors isc).

Definition withQueue (isc : idleStatusController K) (q : workqueue.DelayingQueue)
    : idleStatusController K :=
  mkISC (kube isc) q (gracePeriod isc) (handledErrors isc).

(** [utilruntime.HandleError]. *)
Definition HandleError (isc : idleStatusController K) (e : error) : idleStatusController K :=
  mkISC (kube isc) (gracePeriodQueue isc) (gracePeriod isc) (handledErrors isc ++ [e]).

(** What the callers do with a handler's error:
    [if err != nil { utilruntime.HandleError(err) }]. *)
Definition handled (r : idleStatusController K * option error) : idleStatusController K :=
  match r.2 with
  | Some e => HandleError r.1 e
  | None => r.1
  end.

(** The controller's one write: [SetAnnotationsOnService] with the
    status annotation alone, the error wrapped as the three callers wrap
    it. *)
Definition setStatus (isc : idleStatusController K) (svc : kapi.Service) (status : Status)
    : idleStatusController K * option error :=
  let '(k, err) :=
    SetAnnotationsOnService (kube isc) (kapi.Namespace svc) (kapi.Name svc)
                            {[StatusAnnotation := status]} in
  (withKube isc k,
   match err with
   | Some e => Some (ErrWrap ("can't set service idle status to [" ++ status ++ "]") e)
   | None => None
   end).

(** [markServiceAsGracePeriod]. *)
Definition markServiceAsGracePeriod (isc : idleStatusController K) (svc : kapi.Service)
    : idleStatusController K * option error :=
  match setStatus isc svc StatusGracePeriod with
  | (isc, Some err) => (isc, Some err)
  | (isc, None) =>
      match MetaNamespaceKeyFunc svc with
      | Err e => (isc, Some (ErrMsg "couldn't get key for service"))
      | Ok key =>
          (withQueue isc
             (workqueue.AddAfter (gracePeriodQueue isc) key (gracePeriod isc)),
           None)
      end
  end.

(** [markServiceAsIdleIfNeeded]. *)
Definition markServiceAsIdleIfNeeded (isc : idleStatusController K) (svc : kapi.Service)
    : idleStatusController K * option error :=
  let alreadyIdle :=
    match kapi.Annotations svc with
    | Some annotations =>
        match annotations !! StatusAnnotation with
        | Some status => String.eqb status StatusIdle
        | None => false
        end
    | None => false
    end in
  if alreadyIdle then (isc, None) else setStatus isc svc StatusIdle.

(** [markServiceAsNotIdle]. *)
Definition markServiceAsNotIdle (isc : idleStatusController K) (svc : kapi.Service)
    : idleStatusController K * option error :=
  match kapi.Annotations svc with
  | None => (isc, None)
  | Some annotations =>
      match annotations !! StatusAnnotation with
      | None => (isc, None)
      | Some status =>
          if String.eqb status StatusNotIdle then (isc, None)
          else if String.eqb status StatusIdle then (isc, None)
          else setStatus isc svc StatusNotIdle
      end
  end.

(** The function literal [processNextWorkItem] applies to the key it
    got from the queue. *)
Definition processKey (isc : idleStatusController K) (key : string)
    : idleStatusController K * option error :=
  match SplitMetaNamespaceKey key with
  | Err err => (isc, Some err)
  | Ok (namespace, name) =>
      match ServicesGet (kube isc) namespace name with
      | Err err => if IsNotFound err then (isc, None) else (isc, Some err)
      | Ok service => markServiceAsNotIdle isc service
      end
  end.

(** [processNextWorkItem]; [None] while [Get] blocks. *)
Definition processNextWorkItem (isc : idleStatusController K)
    : option (idleStatusController K * bool) :=
  match workqueue.Get (gracePeriodQueue isc) with
  | None => None
  | Some (q, item, shutdown) =>
      let isc := withQueue isc q in
      if shutdown then Some (isc, false)
      else Some (handled (processKey isc (default "" item)), true)
  end.

(** [onServiceAdd]. *)
Definition onServiceAdd (isc : idleStatusController K) (svc : kapi.Service)
    : idleStatusController K :=
  if negb (hasIdleAt (Some svc)) then isc
  else handled (markServiceAsIdleIfNeeded isc svc).

(** [onServiceUpdate]. *)
Definition onServiceUpdate (isc : idleStatusController K) (old new : kapi.Service)
    : idleStatusController K :=
  let oldSvcIdleAt := hasIdleAt (Some old) in
  let newSvcIdleAt := hasIdleAt (Some new) in
  if oldSvcIdleAt && negb newSvcIdleAt then
    handled (markServiceAsGracePeriod isc new)
  else if newSvcIdleAt then
    handled (markServiceAsIdleIfNeeded isc new)
  else isc.

(** How the loop of [worker] leaves off: [processNextWorkItem] returned
    false, [Get] blocks on an empty queue, or the iterations allowed
    here ran out. *)
Inductive WorkerOutcome : Type :=
  | Returned
  | Blocked
  | OutOfFuel.

(** [worker]: [for isc.processNextWorkItem() {}], for at most [fuel]
    iterations. *)
Fixpoint worker (fuel : nat) (isc : idleStatusController K)
    : idleStatusController K * WorkerOutcome :=
  match fuel with
  | O => (isc, OutOfFuel)
  | Datatypes.S fuel' =>
      match processNextWorkItem isc with
      | None => (isc, Blocked)
      | Some (isc', false) => (isc', Returned)
      | Some (isc', true) => worker fuel' isc'
      end
  end.

(** The handlers [NewIdleStatusController] registers: [AddFunc] and
    [UpdateFunc]; deletions are not subscribed to. *)
Definition serviceHandler (isc : idleStatusController K)
    (n : Unidling.ServiceNotification) : idleStatusController K :=
  match n with
  | Unidling.NotifyAdd svc => onServiceAdd isc svc
  | Unidling.NotifyUpdate old new => onServiceUpdate isc old new
  | Unidling.NotifyDelete _ => isc
  end.

End Controller.

End IdleStatus.

(** ** Collaborators in memory *)

(** Modelled from the spec: the annotation-persistence collaborator and
    the workload lookup ([kube.Interface] and the lister, both outside
    this file).  "Set these annotation key/value pairs on a workload,
    idempotently", "get current workload by key"; a write can fail (the
    spec's "annotation write failure"), here when the cluster is in an
    [outage] or does not hold the workload.  [calls] logs every write
    requested. *)
Record MemCluster := mkMemCluster {
  objects : gmap NamespacedName kapi.Service;
  calls : list (NamespacedName * gmap string string);
  outage : bool
}.

Definition mem_SetAnnotations (c : MemCluster) (namespace name : string)
    (annotations : gmap string string) : MemCluster * option error :=
  let ref := mkNamespacedName namespace name in
  let calls' := (calls c ++ [(ref, annotations)])%list in
  if outage c then
    (mkMemCluster (objects c) calls' (outage c), Some (ErrMsg "cluster unavailable"))
  else
    match objects c !! ref with
    | None =>
        (mkMemCluster (objects c) calls' (outage c), Some (ErrNotFound name))
    | Some svc =>
        let merged := annotations ∪ default ∅ (kapi.Annotations svc) in
        (mkMemCluster (<[ref := kapi.withAnnotations svc (Some merged)]> (objects c))
                      calls' (outage c),
         None)
    end.

Definition mem_ServicesGet (c : MemCluster) (namespace name : string)
    : result kapi.Service :=
  match objects c !! mkNamespacedName namespace name with
  | None => Err (ErrNotFound name)
  | Some svc => Ok svc
  end.

#[global] Instance MemCluster_kube : KubeInterface MemCluster :=
  {| SetAnnotationsOnService := mem_SetAnnotations |}.

#[global] Instance MemCluster_lister : ServiceLister MemCluster :=
  {| ServicesGet := mem_ServicesGet |}.

(** The cluster applying a user's update of a workload: the object is
    replaced as a whole. *)
Definition apiUpdate (svc : kapi.Service) (c : MemCluster) : MemCluster :=
  mkMemCluster (<[refOf svc := svc]> (objects c)) (calls c) (outage c).

(** The status annotation the cluster stores for a workload. *)
Definition storedStatus (c : MemCluster) (namespace name : string) : option Status :=
  svc ← objects c !! mkNamespacedName namespace name;
  go_lookup (kapi.Annotations svc) StatusAnnotation.

(** Modelled from the spec: the control-plane store behind the
    southbound client (outside this file), used only as "delete this
    acknowledged event": a table of event records, a delete transaction
    that removes the record and reports how many rows went, and that
    fails as a whole while the store is [down]. *)
Record MemSB := mkMemSB {
  rows : list sbdb.ControllerEvent;
  down : bool
}.

Definition mem_WhereDelete (s : MemSB) (event : sbdb.ControllerEvent)
    : result (list ovsdb.Operation) :=
  Ok [ovsdb.mkOperation "delete" "Controller_Event" (sbdb.UUID event)].

Definition mem_applyOp (rs : list sbdb.ControllerEvent) (op : ovsdb.Operation)
    : list sbdb.ControllerEvent * ovsdb.OperationResult :=
  let keep := filter (λ r, sbdb.UUID r ≠ ovsdb.WhereUUID op) rs in
  (keep, ovsdb.mkOperationResult (Z.of_nat (length rs - length keep)) "").

Fixpoint mem_applyOps (rs : list sbdb.ControllerEvent) (ops : list ovsdb.Operation)
    : list sbdb.ControllerEvent * list ovsdb.OperationResult :=
  match ops with
  | [] => (rs, [])
  | op :: ops' =>
      let '(rs1, r) := mem_applyOp rs op in
      let '(rs2, res) := mem_applyOps rs1 ops' in
      (rs2, r :: res)
  end.

Definition mem_Transact (s : MemSB) (ops : list ovsdb.Operation)
    : MemSB * result (list ovsdb.OperationResult) :=
  if down s then (s, Err (ErrMsg "transaction failed"))
  else
    let '(rs, res) := mem_applyOps (rows s) ops in
    (mkMemSB rs (down s), Ok res).

Definition mem_CheckOperationResults (result : list ovsdb.OperationResult)
    (ops : list ovsdb.Operation) : option error :=
  if (length result <? length ops)%nat then
    Some (ErrMsg "ovsdb transaction error: fewer results than operations")
  else if forallb (λ r, String.eqb (ovsdb.Error r) "") result then None
  else Some (ErrMsg "ovsdb transaction error").

#[global] Instance MemSB_client : SBClient MemSB :=
  {| WhereDelete := mem_WhereDelete;
     Transact := mem_Transact;
     CheckOperationResults := mem_CheckOperationResults |}.

(** Modelled from the spec: the helpers of package [util] (outside this
    file).  A VIP is "built by concatenating a workload's
    cluster-assigned address and a declared port"; a cluster address is
    set when it is neither empty nor ["None"]; the service types with a
    cluster address are [ClusterIP], [NodePort] and [LoadBalancer]. *)
Definition digit (n : nat) : string :=
  String (ascii_of_nat (48 + n)) "".

Fixpoint decimal_fuel (fuel n : nat) : string :=
  match fuel with
  | O => ""
  | Datatypes.S fuel' =>
      if (n <? 10)%nat then digit n
      else decimal_fuel fuel' (n / 10) ++ digit (n mod 10)
  end.

Definition Itoa (z : Z) : string :=
  let n := Z.abs_nat z in
  (if (z <? 0)%Z then "-" else "") ++ decimal_fuel (Datatypes.S n) n.

Definition model_JoinHostPortInt32 (host : string) (port : Z) : string :=
  host ++ ":" ++ Itoa port.

Definition model_GetClusterIPs (spec : kapi.ServiceSpec) : list string :=
  match kapi.ClusterIPs spec with
  | _ :: _ => kapi.ClusterIPs spec
  | [] =>
      if negb (String.eqb (kapi.ClusterIP spec) "") &&
         negb (String.eqb (kapi.ClusterIP spec) "None")
      then [kapi.ClusterIP spec] else []
  end.

#[global] Instance model_Util : Util :=
  {| ServiceTypeHasClusterIP spec :=
       String.eqb (kapi.Type_ spec) "ClusterIP" ||
       String.eqb (kapi.Type_ spec) "NodePort" ||
       String.eqb (kapi.Type_ spec) "LoadBalancer";
     IsClusterIPSet spec :=
       negb (String.eqb (kapi.ClusterIP spec) "None") &&
       negb (String.eqb (kapi.ClusterIP spec) "");
     GetClusterIPs := model_GetClusterIPs;
     JoinHostPortInt32 := model_JoinHostPortInt32 |}.

(** ** The registry a sequence of notifications should leave *)

Section Registry.
Context `{!Util}.

(** The (vip, protocol) pairs derivable from a workload's spec: one per
    cluster address and declared port, when the workload has a set
    cluster address. *)
Definition serviceVIPs (spec : kapi.ServiceSpec) : list ServiceVIPKey :=
  if ServiceTypeHasClusterIP spec && IsClusterIPSet spec then
    ip ← GetClusterIPs spec;
    svcPort ← kapi.Ports spec;
    [mkServiceVIPKey (JoinHostPortInt32 ip (kapi.Port svcPort)) (kapi.PortProtocol svcPort)]
  else [].

(** The service a delete notification is about, if any. *)
Definition deletedService (obj : WatchObj) : option kapi.Service :=
  match obj with
  | ObjService svc => Some svc
  | ObjTombstone inner => inner
  | ObjOther => None
  end.

(** The still-existing workloads, each with its most recent spec, after
    a notification. *)
Definition observe (live : gmap NamespacedName kapi.ServiceSpec)
    (n : Unidling.ServiceNotification) : gmap NamespacedName kapi.ServiceSpec :=
  match n with
  | Unidling.NotifyAdd svc => <[refOf svc := kapi.Spec svc]> live
  | Unidling.NotifyUpdate old new =>
      <[refOf new := kapi.Spec new]> (delete (refOf old) live)
  | Unidling.NotifyDelete obj =>
      match deletedService obj with
      | Some svc => delete (refOf svc) live
      | None => live
      end
  end.

(** No workload other than [ref] derives one of the pairs of [spec]. *)
Definition unshared (live : gmap NamespacedName kapi.ServiceSpec)
    (ref : NamespacedName) (spec : kapi.ServiceSpec) : Prop :=
  map_Forall
    (λ ref' spec',
       ref' = ref ∨ Forall (λ k, k ∉ serviceVIPs spec') (serviceVIPs spec))
    live.

(** A notification the watch can deliver when the existing workloads
    are [live]: an add is for a workload not yet known, an update
    carries the last spec observed as its old object, a delete is for a
    known workload with its last spec; and no two existing workloads
    share a (vip, protocol) pair. *)
Definition deliverable (live : gmap NamespacedName kapi.ServiceSpec)
    (n : Unidling.ServiceNotification) : Prop :=
  match n with
  | Unidling.NotifyAdd svc =>
      live !! refOf svc = None ∧ unshared live (refOf svc) (kapi.Spec svc)
  | Unidling.NotifyUpdate old new =>
      refOf new = refOf old ∧
      live !! refOf old = Some (kapi.Spec old) ∧
      unshared live (refOf new) (kapi.Spec new)
  | Unidling.NotifyDelete obj =>
      ∃ svc, deletedService obj = Some svc ∧
             live !! refOf svc = Some (kapi.Spec svc)
  end.

(** The registry holds exactly the pairs derivable from the specs of
    the existing workloads. *)
Definition reflects (reg : gmap ServiceVIPKey NamespacedName)
    (live : gmap NamespacedName kapi.ServiceSpec) : Prop :=
  ∀ k ref, reg !! k = Some ref ↔
           ∃ spec, live !! ref = Some spec ∧ k ∈ serviceVIPs spec.

Fixpoint deliverable_trace (live : gmap NamespacedName kapi.ServiceSpec)
    (ns : list Unidling.ServiceNotification) : Prop :=
  match ns with
  | [] => True
  | n :: ns' => deliverable live n ∧ deliverable_trace (observe live n) ns'
  end.

End Registry.

(** ** Sample objects *)

Module Sample.

Definition spec80 : kapi.ServiceSpec :=
  kapi.mkServiceSpec "ClusterIP" "10.0.0.5" ["10.0.0.5"]
                     [kapi.mkServicePort 80 kapi.ProtocolUDP].

Definition spec8080 : kapi.ServiceSpec :=
  kapi.mkServiceSpec "ClusterIP" "10.0.0.5" ["10.0.0.5"]
                     [kapi.mkServicePort 8080 kapi.ProtocolTCP].

Definition idledAt : string := "k8s.ovn.org/idled-at".

(** [ns/svc] with the idle-request annotation and the given status. *)
Definition idled (status : Status) : kapi.Service :=
  kapi.mkService "ns" "svc"
    (Some {[idledAt := "2021-05-05T10:00:00Z"; StatusAnnotation := status]}) spec80.

(** [ns/svc] without the idle-request annotation, with the given
    status. *)
Definition unidled (status : Status) : kapi.Service :=
  kapi.mkService "ns" "svc" (Some {[StatusAnnotation := status]}) spec80.

(** [ns/svc] with no annotation map at all. *)
Definition bare : kapi.Service := kapi.mkService "ns" "svc" None spec80.

(** Another workload that derives the same (vip, protocol) pair. *)
Definition twin : kapi.Service := kapi.mkService "ns" "twin" None spec80.

Definition clusterWith (svc : kapi.Service) (outage : bool) : MemCluster :=
  mkMemCluster {[refOf svc := svc]} [] outage.

Definition controllerOn (c : MemCluster) (q : workqueue.DelayingQueue)
    : idleStatusController MemCluster :=
  mkISC c q GracePeriodDuration [].

(** A queue that has just released the key of [ns/svc]. *)
Definition expired : workqueue.DelayingQueue :=
  workqueue.Add workqueue.NewDelayingQueue "ns/svc".

Definition event (info : gmap string string) : sbdb.ControllerEvent :=
  sbdb.mkControllerEvent "e1" sbdb.ControllerEventEventTypeEmptyLbBackends info 1.

Definition bridge (registry : gmap ServiceVIPKey NamespacedName)
    (stored : list sbdb.ControllerEvent) (down : bool) : unidlingController MemSB :=
  mkUC [] registry (mkMemSB stored down) workqueue.NewDelayingQueue [].

(** [ns/svc] after its port moved to 8080/TCP. *)
Definition moved : kapi.Service := kapi.mkService "ns" "svc" None spec8080.

(** A workload appears and its port is changed. *)
Definition portChange : list Unidling.ServiceNotification :=
  [Unidling.NotifyAdd bare; Unidling.NotifyUpdate bare moved].

(** Two workloads with the same cluster address and port; the second
    one is deleted. *)
Definition sharedVIP : list Unidling.ServiceNotification :=
  [Unidling.NotifyAdd bare; Unidling.NotifyAdd twin;
   Unidling.NotifyDelete (ObjService twin)].

(** A headless service: its cluster address is ["None"]. *)
Definition headless : kapi.Service :=
  kapi.mkService "ns" "headless" None
    (kapi.mkServiceSpec "ClusterIP" "None" [] [kapi.mkServicePort 80 kapi.ProtocolTCP]).

(** The registry and the events of the spec's scenario 6. *)
Definition registry : gmap ServiceVIPKey NamespacedName :=
  {[mkServiceVIPKey "10.0.0.5:80" kapi.ProtocolUDP := mkNamespacedName "ns" "svc"]}.

Definition udpEvent : sbdb.ControllerEvent :=
  event {["vip" := "10.0.0.5:80"; "protocol" := "udp"]}.

Definition upperEvent : sbdb.ControllerEvent :=
  event {["vip" := "10.0.0.5:80"; "protocol" := "UDP"]}.

Definition noVipEvent : sbdb.ControllerEvent := event {["protocol" := "udp"]}.

End Sample.

(** * Properties *)

(** ** Reading the idle status *)

(** C7, as the code has it: [GetIdleStatus] is [NotIdle] when the status
    annotation is absent (a nil annotation map included), and otherwise
    the annotation's value as it stands, whatever string that is. *)
Theorem GetIdleStatus_annotation (svc : kapi.Service) :
  (go_lookup (kapi.Annotations svc) StatusAnnotation = None →
   GetIdleStatus svc = StatusNotIdle) ∧
  (∀ status, go_lookup (kapi.Annotations svc) StatusAnnotation = Some status →
             GetIdleStatus svc = status).
Proof.
  unfold GetIdleStatus, go_lookup.
  destruct (kapi.Annotations svc) as [annotations|]; [|by split].
  split; [intros -> | intros status ->]; reflexivity.
Qed.

Lemma GetIdleStatus_annotation_witness :
  GetIdleStatus Sample.bare = StatusNotIdle ∧
  GetIdleStatus (Sample.idled StatusGracePeriod) = StatusGracePeriod.
Proof.
  split.
  - apply (proj1 (GetIdleStatus_annotation Sample.bare)). reflexivity.
  - apply (proj2 (GetIdleStatus_annotation (Sample.idled StatusGracePeriod))).
    vm_compute. reflexivity.
Defined.

(** C7 as stated fails: an annotation holding another string is returned
    unchanged, and is none of the three values. *)
Lemma GetIdleStatus_outside_enum :
  GetIdleStatus (Sample.unidled "Sleeping") = "Sleeping" ∧
  "Sleeping" ≠ StatusIdle ∧ "Sleeping" ≠ StatusGracePeriod ∧
  "Sleeping" ≠ StatusNotIdle.
Proof. by repeat split. Qed.

(** ** The protocol of an empty-backends event *)

(** C3, as the code has it: the protocol is UDP or SCTP when the
    [protocol] field is exactly ["udp"] or ["sctp"], and TCP when the
    field is absent or holds anything else, another spelling of those
    two included. *)
Theorem eventProtocol_exact (event : sbdb.ControllerEvent) :
  (sbdb.EventInfo event !! "protocol" = Some "udp" →
   Unidling.eventProtocol event = kapi.ProtocolUDP) ∧
  (sbdb.EventInfo event !! "protocol" = Some "sctp" →
   Unidling.eventProtocol event = kapi.ProtocolSCTP) ∧
  (sbdb.EventInfo event !! "protocol" ≠ Some "udp" →
   sbdb.EventInfo event !! "protocol" ≠ Some "sctp" →
   Unidling.eventProtocol event = kapi.ProtocolTCP).
Proof.
  unfold Unidling.eventProtocol. repeat split.
  - intros ->. reflexivity.
  - intros ->. reflexivity.
  - intros Hudp Hsctp.
    destruct (sbdb.EventInfo event !! "protocol") as [proto|] eqn:E; simpl;
      [|reflexivity].
    destruct (String.eqb_spec proto "udp") as [->|_]; [done|].
    destruct (String.eqb_spec proto "sctp") as [->|_]; [done|].
    reflexivity.
Qed.

Lemma eventProtocol_exact_witness :
  Unidling.eventProtocol (Sample.event {["vip" := "10.0.0.5:80"; "protocol" := "sctp"]})
    = kapi.ProtocolSCTP ∧
  Unidling.eventProtocol (Sample.event {["vip" := "10.0.0.5:80"]}) = kapi.ProtocolTCP.
Proof.
  split.
  - apply (proj1 (proj2 (eventProtocol_exact _))). vm_compute. reflexivity.
  - apply (proj2 (proj2 (eventProtocol_exact _))); vm_compute; discriminate.
Defined.

(** C3 as stated fails: ["UDP"] equals ["udp"] under case-insensitive
    comparison, and the event is looked up as TCP. *)
Lemma eventProtocol_case_sensitive :
  ToLower "UDP" = "udp" ∧
  sbdb.EventInfo Sample.upperEvent !! "protocol" = Some "UDP" ∧
  Unidling.eventProtocol Sample.upperEvent = kapi.ProtocolTCP ∧
  eventRecorder
    (Unidling.handleLbEmptyBackendsEvent
       (Sample.bridge Sample.registry [Sample.upperEvent] false) Sample.upperEvent).1
  = [].
Proof. by vm_compute. Qed.

(** ** The idle-status state machine *)

Lemma MetaNamespaceKeyFunc_key (svc : kapi.Service) :
  MetaNamespaceKeyFunc svc =
    Ok (if String.eqb (kapi.Namespace svc) "" then kapi.Name svc
        else kapi.Namespace svc ++ "/" ++ kapi.Name svc).
Proof. unfold MetaNamespaceKeyFunc. by destruct (String.eqb _ _). Qed.

Section IdleStatusFacts.
Context {K : Type} `{!KubeInterface K} `{!ServiceLister K}.
Implicit Types (isc : idleStatusController K) (svc old new : kapi.Service).

(** [setStatus] in terms of the client's reply. *)
Lemma setStatus_reply isc svc (status : string) (k : K) (err : option error) :
  SetAnnotationsOnService (kube isc) (kapi.Namespace svc) (kapi.Name svc)
                          {[StatusAnnotation := status]} = (k, err) →
  IdleStatus.setStatus isc svc status =
    (IdleStatus.withKube isc k,
     ErrWrap ("can't set service idle status to [" ++ status ++ "]") <$> err).
Proof.
  intros Hreply. unfold IdleStatus.setStatus. rewrite Hreply.
  by destruct err.
Qed.

(** [markServiceAsNotIdle] on a status other than ["Idle"] and
    ["NotIdle"], in terms of the client's reply. *)
Lemma markServiceAsNotIdle_reply isc svc (status : string) (k : K) (err : option error) :
  go_lookup (kapi.Annotations svc) StatusAnnotation = Some status →
  status ≠ StatusIdle → status ≠ StatusNotIdle →
  SetAnnotationsOnService (kube isc) (kapi.Namespace svc) (kapi.Name svc)
                          {[StatusAnnotation := StatusNotIdle]} = (k, err) →
  IdleStatus.markServiceAsNotIdle isc svc =
    (IdleStatus.withKube isc k,
     ErrWrap "can't set service idle status to [NotIdle]" <$> err).
Proof.
  unfold IdleStatus.markServiceAsNotIdle, go_lookup.
  destruct (kapi.Annotations svc) as [annotations|]; [|done].
  intros -> Hidle Hnotidle Hreply.
  destruct (String.eqb_spec status StatusNotIdle) as [->|_]; [done|].
  destruct (String.eqb_spec status StatusIdle) as [->|_]; [done|].
  by rewrite (setStatus_reply _ _ _ _ _ Hreply).
Qed.

(** C10: [markServiceAsNotIdle] asks the cluster to set the status
    annotation to [NotIdle] for every stored value other than the
    strings ["Idle"] and ["NotIdle"], inside the three-value enum or
    not, and hands back the cluster's error, wrapped; it does nothing
    when the annotation map is nil or the annotation is absent. *)
Theorem markServiceAsNotIdle_writes isc svc :
  (∀ status k err,
     go_lookup (kapi.Annotations svc) StatusAnnotation = Some status →
     status ≠ StatusIdle → status ≠ StatusNotIdle →
     SetAnnotationsOnService (kube isc) (kapi.Namespace svc) (kapi.Name svc)
                             {[StatusAnnotation := StatusNotIdle]} = (k, err) →
     IdleStatus.markServiceAsNotIdle isc svc =
       (IdleStatus.withKube isc k,
        ErrWrap "can't set service idle status to [NotIdle]" <$> err)) ∧
  (go_lookup (kapi.Annotations svc) StatusAnnotation = None →
   IdleStatus.markServiceAsNotIdle isc svc = (isc, None)).
Proof.
  split.
  - intros status k err. apply markServiceAsNotIdle_reply.
  - unfold IdleStatus.markServiceAsNotIdle, go_lookup.
    destruct (kapi.Annotations svc) as [annotations|]; [|done].
    by intros ->.
Qed.

(** C9: when the write of [GracePeriod] fails, [markServiceAsGracePeriod]
    returns that error, wrapped, and the delay queue is as it was. *)
Theorem markServiceAsGracePeriod_write_error isc svc (k : K) (e : error) :
  SetAnnotationsOnService (kube isc) (kapi.Namespace svc) (kapi.Name svc)
                          {[StatusAnnotation := StatusGracePeriod]} = (k, Some e) →
  IdleStatus.markServiceAsGracePeriod isc svc =
    (IdleStatus.withKube isc k,
     Some (ErrWrap "can't set service idle status to [GracePeriod]" e)) ∧
  gracePeriodQueue (IdleStatus.markServiceAsGracePeriod isc svc).1 =
    gracePeriodQueue isc.
Proof.
  intros Hreply. unfold IdleStatus.markServiceAsGracePeriod.
  by rewrite (setStatus_reply _ _ _ _ _ Hreply).
Qed.

(** [markServiceAsGracePeriod] in terms of the client's reply. *)
Lemma markServiceAsGracePeriod_reply isc svc (k : K) (err : option error) (key : string) :
  SetAnnotationsOnService (kube isc) (kapi.Namespace svc) (kapi.Name svc)
                          {[StatusAnnotation := StatusGracePeriod]} = (k, err) →
  MetaNamespaceKeyFunc svc = Ok key →
  IdleStatus.handled (IdleStatus.markServiceAsGracePeriod isc svc) =
    match err with
    | None =>
        mkISC k (workqueue.AddAfter (gracePeriodQueue isc) key (gracePeriod isc))
              (gracePeriod isc) (handledErrors isc)
    | Some e =>
        mkISC k (gracePeriodQueue isc) (gracePeriod isc)
              (handledErrors isc ++
               [ErrWrap "can't set service idle status to [GracePeriod]" e])
    end.
Proof.
  intros Hreply Hkey. unfold IdleStatus.markServiceAsGracePeriod.
  rewrite (setStatus_reply _ _ _ _ _ Hreply), Hkey.
  by destruct err.
Qed.

(** C1, as the code has it: on an update that takes the idle-request
    marker from true to false, the controller asks the cluster to set
    the status to [GracePeriod] whatever the stored status is, and
    schedules the grace timer for the workload's key exactly when that
    write succeeds; a failed write is reported and schedules nothing. *)
Theorem onServiceUpdate_unidled isc old new (k : K) (err : option error) (key : string) :
  hasIdleAt (Some old) = true →
  hasIdleAt (Some new) = false →
  SetAnnotationsOnService (kube isc) (kapi.Namespace new) (kapi.Name new)
                          {[StatusAnnotation := StatusGracePeriod]} = (k, err) →
  MetaNamespaceKeyFunc new = Ok key →
  IdleStatus.onServiceUpdate isc old new =
    match err with
    | None =>
        mkISC k (workqueue.AddAfter (gracePeriodQueue isc) key (gracePeriod isc))
              (gracePeriod isc) (handledErrors isc)
    | Some e =>
        mkISC k (gracePeriodQueue isc) (gracePeriod isc)
              (handledErrors isc ++
               [ErrWrap "can't set service idle status to [GracePeriod]" e])
    end.
Proof.
  intros Hold Hnew Hreply Hkey. unfold IdleStatus.onServiceUpdate.
  rewrite Hold, Hnew. simpl.
  by apply markServiceAsGracePeriod_reply.
Qed.

(** C2, as the code has it.  When the queue releases a workload's key:
    a workload the lister does not find is dropped, with no write and
    no error reported; a workload found with no status annotation, or
    with status [Idle] or [NotIdle], is left alone; for any other stored
    status the controller asks the cluster to set [NotIdle].  The
    idle-request marker is not consulted. *)
Theorem processNextWorkItem_expiry isc (q : workqueue.DelayingQueue)
    (key namespace name : string) :
  workqueue.Get (gracePeriodQueue isc) = Some (q, Some key, false) →
  SplitMetaNamespaceKey key = Ok (namespace, name) →
  (∀ e, ServicesGet (kube isc) namespace name = Err e → IsNotFound e = true →
        IdleStatus.processNextWorkItem isc = Some (IdleStatus.withQueue isc q, true)) ∧
  (∀ svc, ServicesGet (kube isc) namespace name = Ok svc →
     (go_lookup (kapi.Annotations svc) StatusAnnotation = None ∨
      go_lookup (kapi.Annotations svc) StatusAnnotation = Some StatusIdle ∨
      go_lookup (kapi.Annotations svc) StatusAnnotation = Some StatusNotIdle →
      IdleStatus.processNextWorkItem isc = Some (IdleStatus.withQueue isc q, true)) ∧
     (∀ status k err,
        go_lookup (kapi.Annotations svc) StatusAnnotation = Some status →
        status ≠ StatusIdle → status ≠ StatusNotIdle →
        SetAnnotationsOnService (kube isc) (kapi.Namespace svc) (kapi.Name svc)
                                {[StatusAnnotation := StatusNotIdle]} = (k, err) →
        IdleStatus.processNextWorkItem isc =
          Some (mkISC k q (gracePeriod isc)
                      (handledErrors isc ++
                       match err with
                       | Some e => [ErrWrap "can't set service idle status to [NotIdle]" e]
                       | None => []
                       end),
                true))).
Proof.
  intros Hget Hsplit.
  unfold IdleStatus.processNextWorkItem, IdleStatus.processKey.
  rewrite Hget. simpl. rewrite Hsplit.
  split.
  - intros e -> ->. reflexivity.
  - intros svc ->. split.
    + unfold IdleStatus.markServiceAsNotIdle, go_lookup.
      destruct (kapi.Annotations svc) as [annotations|]; [|done].
      by intros [-> | [-> | ->]].
    + intros status k err Hstatus Hidle Hnotidle Hreply.
      rewrite (markServiceAsNotIdle_reply (IdleStatus.withQueue isc q) svc
                 status k err Hstatus Hidle Hnotidle Hreply).
      destruct err; simpl; [reflexivity|].
      by rewrite app_nil_r.
Qed.

End IdleStatusFacts.

(** *** The state machine on the in-memory cluster *)

Lemma markServiceAsNotIdle_writes_witness :
  storedStatus
    (kube (IdleStatus.markServiceAsNotIdle
             (Sample.controllerOn (Sample.clusterWith (Sample.unidled "Paused") false)
                                  workqueue.NewDelayingQueue)
             (Sample.unidled "Paused")).1)
    "ns" "svc" = Some StatusNotIdle ∧
  IdleStatus.markServiceAsNotIdle
    (Sample.controllerOn (Sample.clusterWith Sample.bare false) workqueue.NewDelayingQueue)
    Sample.bare =
  (Sample.controllerOn (Sample.clusterWith Sample.bare false) workqueue.NewDelayingQueue,
   None).
Proof.
  split.
  - erewrite (proj1 (markServiceAsNotIdle_writes _ _) "Paused");
      [| vm_compute; reflexivity | discriminate | discriminate | reflexivity].
    vm_compute. reflexivity.
  - apply (proj2 (markServiceAsNotIdle_writes _ _)). reflexivity.
Defined.

Lemma markServiceAsGracePeriod_write_error_witness :
  gracePeriodQueue
    (IdleStatus.markServiceAsGracePeriod
       (Sample.controllerOn (Sample.clusterWith (Sample.unidled StatusIdle) true)
                            workqueue.NewDelayingQueue)
       (Sample.unidled StatusIdle)).1
  = workqueue.NewDelayingQueue.
Proof.
  refine (proj2 (markServiceAsGracePeriod_write_error
                   (Sample.controllerOn
                      (Sample.clusterWith (Sample.unidled StatusIdle) true)
                      workqueue.NewDelayingQueue)
                   (Sample.unidled StatusIdle) _ (ErrMsg "cluster unavailable") _)).
  reflexivity.
Defined.

(** C1 as stated fails: an update that takes the marker from true to
    false while the stored status is [NotIdle] is no no-op.  The
    controller writes [GracePeriod] and schedules the grace timer. *)
Lemma unidled_update_rewrites_NotIdle :
  let isc := Sample.controllerOn (Sample.clusterWith (Sample.unidled StatusNotIdle) false)
                                 workqueue.NewDelayingQueue in
  let isc' := IdleStatus.onServiceUpdate isc (Sample.idled StatusNotIdle)
                                         (Sample.unidled StatusNotIdle) in
  hasIdleAt (Some (Sample.idled StatusNotIdle)) = true ∧
  hasIdleAt (Some (Sample.unidled StatusNotIdle)) = false ∧
  GetIdleStatus (Sample.unidled StatusNotIdle) = StatusNotIdle ∧
  calls (kube isc') =
    [(mkNamespacedName "ns" "svc", {[StatusAnnotation := StatusGracePeriod]})] ∧
  storedStatus (kube isc') "ns" "svc" = Some StatusGracePeriod ∧
  workqueue.waitingForAdd (gracePeriodQueue isc') = [("ns/svc", GracePeriodDuration)].
Proof. by vm_compute. Qed.

Lemma onServiceUpdate_unidled_witness :
  let isc := Sample.controllerOn (Sample.clusterWith (Sample.unidled StatusIdle) false)
                                 workqueue.NewDelayingQueue in
  let isc' := IdleStatus.onServiceUpdate isc (Sample.idled StatusIdle)
                                         (Sample.unidled StatusIdle) in
  storedStatus (kube isc') "ns" "svc" = Some StatusGracePeriod ∧
  workqueue.waitingForAdd (gracePeriodQueue isc') = [("ns/svc", GracePeriodDuration)].
Proof.
  cbv zeta.
  erewrite (onServiceUpdate_unidled _ (Sample.idled StatusIdle)
                                    (Sample.unidled StatusIdle) _ _ "ns/svc");
    [| vm_compute; reflexivity | vm_compute; reflexivity | reflexivity | reflexivity].
  by vm_compute.
Defined.

(** C2 as stated fails: the grace timer fires for a workload that
    carries the idle-request marker again while its stored status is
    still [GracePeriod], and [NotIdle] is written. *)
Lemma processNextWorkItem_marker_ignored :
  let isc := Sample.controllerOn (Sample.clusterWith (Sample.idled StatusGracePeriod) false)
                                 Sample.expired in
  hasIdleAt (Some (Sample.idled StatusGracePeriod)) = true ∧
  ServicesGet (kube isc) "ns" "svc" = Ok (Sample.idled StatusGracePeriod) ∧
  ∃ isc', IdleStatus.processNextWorkItem isc = Some (isc', true) ∧
          calls (kube isc') =
            [(mkNamespacedName "ns" "svc", {[StatusAnnotation := StatusNotIdle]})] ∧
          storedStatus (kube isc') "ns" "svc" = Some StatusNotIdle.
Proof.
  cbv zeta. split; [by vm_compute|]. split; [by vm_compute|].
  eexists. split; [vm_compute; reflexivity|]. by vm_compute.
Qed.

Lemma processNextWorkItem_expiry_witness :
  let isc := Sample.controllerOn (Sample.clusterWith (Sample.unidled StatusGracePeriod) false)
                                 Sample.expired in
  ∃ isc', IdleStatus.processNextWorkItem isc = Some (isc', true) ∧
          storedStatus (kube isc') "ns" "svc" = Some StatusNotIdle ∧
          handledErrors isc' = [].
Proof.
  cbv zeta. eexists. split.
  - eapply (proj2 (proj2 (processNextWorkItem_expiry _ _ "ns/svc" "ns" "svc" _ _)
                         (Sample.unidled StatusGracePeriod) _)
                  StatusGracePeriod);
      [vm_compute; reflexivity | discriminate | discriminate | reflexivity].
  - by vm_compute.
  Unshelve. all: by vm_compute.
Defined.

(** ** The empty-backends event bridge *)

Section BridgeFacts.
Context {S : Type} `{!SBClient S}.
Implicit Types (uc : unidlingController S) (event : sbdb.ControllerEvent).

(** The acknowledgement touches the database only. *)
Lemma deleteEvent_frame uc event :
  (Unidling.deleteEvent uc event).1 =
    Unidling.uc_withSB uc (sbClient (Unidling.deleteEvent uc event).1).
Proof.
  unfold Unidling.deleteEvent.
  destruct (WhereDelete (sbClient uc) event) as [op|e]; [|by destruct uc].
  destruct (Transact (sbClient uc) op) as [sb [result|e]]; reflexivity.
Qed.

(** The acknowledgement when its three calls succeed. *)
Lemma deleteEvent_ok uc event (op : list ovsdb.Operation) (sb : S)
    (result : list ovsdb.OperationResult) :
  WhereDelete (sbClient uc) event = Ok op →
  Transact (sbClient uc) op = (sb, Ok result) →
  CheckOperationResults result op = None →
  Unidling.deleteEvent uc event = (Unidling.uc_withSB uc sb, None).
Proof.
  intros Hop Htransact Hcheck. unfold Unidling.deleteEvent.
  by rewrite Hop, Htransact, Hcheck.
Qed.

(** Whatever the event, at most the one [NeedPods] signal is recorded,
    and none when the handler returns an error. *)
Lemma handleLbEmptyBackendsEvent_error_no_signal uc event (e : error) :
  (Unidling.handleLbEmptyBackendsEvent uc event).2 = Some e →
  eventRecorder (Unidling.handleLbEmptyBackendsEvent uc event).1 = eventRecorder uc.
Proof.
  unfold Unidling.handleLbEmptyBackendsEvent.
  pose proof (deleteEvent_frame uc event) as Hframe.
  destruct (Unidling.deleteEvent uc event) as [uc' [err|]]; simpl in *.
  - intros _. by rewrite Hframe.
  - destruct (sbdb.EventInfo event !! "vip") as [vip|]; [|done].
    by destruct (Unidling.GetServiceVIPToName uc' vip _).
Qed.

(** C4: for an event whose acknowledging delete goes through (the
    operation is built, transacted and its results check out) and whose
    (vip, protocol) the registry resolves, the handler leaves the
    database as the delete transaction left it and records exactly one
    signal, the [NeedPods] event on the owning service; when the
    registry does not resolve the pair the database is left the same way
    and nothing is recorded.  No error is returned either way. *)
Theorem handleLbEmptyBackendsEvent_signal uc event (op : list ovsdb.Operation)
    (sb : S) (result : list ovsdb.OperationResult) (vip : string) :
  WhereDelete (sbClient uc) event = Ok op →
  Transact (sbClient uc) op = (sb, Ok result) →
  CheckOperationResults result op = None →
  sbdb.EventInfo event !! "vip" = Some vip →
  (∀ owner,
     serviceVIPToName uc !! mkServiceVIPKey vip (Unidling.eventProtocol event)
       = Some owner →
     Unidling.handleLbEmptyBackendsEvent uc event =
       (mkUC (eventRecorder uc ++
              [mkRecordedEvent
                 (kapi.mkObjectReference "Service" (nnNamespace owner) (nnName owner))
                 "Normal" "NeedPods" ("The service " ++ nnName owner ++ " needs pods")])
             (serviceVIPToName uc) sb (uc_gracePeriodQueue uc) (uc_handledErrors uc),
        None)) ∧
  (serviceVIPToName uc !! mkServiceVIPKey vip (Unidling.eventProtocol event) = None →
   Unidling.handleLbEmptyBackendsEvent uc event =
     (mkUC (eventRecorder uc) (serviceVIPToName uc) sb
           (uc_gracePeriodQueue uc) (uc_handledErrors uc),
      None)).
Proof.
  intros Hop Htransact Hcheck Hvip.
  unfold Unidling.handleLbEmptyBackendsEvent.
  rewrite (deleteEvent_ok _ _ _ _ _ Hop Htransact Hcheck), Hvip.
  unfold Unidling.GetServiceVIPToName. simpl.
  split; [intros owner ->|intros ->]; reflexivity.
Qed.

(** C8: for an event whose payload has no [vip], the handler still runs
    the acknowledging delete first and leaves the database as that
    delete left it, records no signal, and returns no error once the
    delete has gone through: the missing field is no error of its
    own. *)
Theorem handleLbEmptyBackendsEvent_no_vip uc event :
  sbdb.EventInfo event !! "vip" = None →
  eventRecorder (Unidling.handleLbEmptyBackendsEvent uc event).1 = eventRecorder uc ∧
  Unidling.handleLbEmptyBackendsEvent uc event = Unidling.deleteEvent uc event ∧
  (∀ op sb result,
     WhereDelete (sbClient uc) event = Ok op →
     Transact (sbClient uc) op = (sb, Ok result) →
     CheckOperationResults result op = None →
     Unidling.handleLbEmptyBackendsEvent uc event =
       (mkUC (eventRecorder uc) (serviceVIPToName uc) sb
             (uc_gracePeriodQueue uc) (uc_handledErrors uc),
        None)).
Proof.
  intros Hvip.
  assert (Unidling.handleLbEmptyBackendsEvent uc event = Unidling.deleteEvent uc event)
    as Hsame.
  { unfold Unidling.handleLbEmptyBackendsEvent. rewrite Hvip.
    by destruct (Unidling.deleteEvent uc event) as [uc' [err|]]. }
  split; [|split; [exact Hsame|]].
  - rewrite Hsame, deleteEvent_frame. reflexivity.
  - intros op sb result Hop Htransact Hcheck.
    rewrite Hsame. by apply (deleteEvent_ok _ _ op sb result).
Qed.

End BridgeFacts.

(** *** The bridge on the in-memory store *)

(** Scenario 6 of the spec: the registry resolves the UDP VIP. *)
Lemma handleLbEmptyBackendsEvent_signal_witness :
  let uc := Sample.bridge Sample.registry [Sample.udpEvent] false in
  let r := Unidling.handleLbEmptyBackendsEvent uc Sample.udpEvent in
  rows (sbClient r.1) = [] ∧
  evObject <$> eventRecorder r.1 = [kapi.mkObjectReference "Service" "ns" "svc"] ∧
  r.2 = None.
Proof.
  cbv zeta.
  rewrite (proj1 (@handleLbEmptyBackendsEvent_signal MemSB MemSB_client
                    (Sample.bridge Sample.registry [Sample.udpEvent] false)
                    Sample.udpEvent
                    [ovsdb.mkOperation "delete" "Controller_Event" "e1"]
                    (mkMemSB [] false) [ovsdb.mkOperationResult 1 ""] "10.0.0.5:80"
                    ltac:(reflexivity) ltac:(vm_compute; reflexivity)
                    ltac:(reflexivity) ltac:(vm_compute; reflexivity))
                 (mkNamespacedName "ns" "svc") ltac:(vm_compute; reflexivity)).
  by vm_compute.
Defined.

Lemma handleLbEmptyBackendsEvent_no_vip_witness :
  let uc := Sample.bridge Sample.registry [Sample.noVipEvent] false in
  let r := Unidling.handleLbEmptyBackendsEvent uc Sample.noVipEvent in
  rows (sbClient r.1) = [] ∧ eventRecorder r.1 = [] ∧ r.2 = None.
Proof.
  cbv zeta.
  rewrite (proj2 (proj2 (@handleLbEmptyBackendsEvent_no_vip MemSB MemSB_client
                           (Sample.bridge Sample.registry [Sample.noVipEvent] false)
                           Sample.noVipEvent
                           ltac:(vm_compute; reflexivity)))
                 [ovsdb.mkOperation "delete" "Controller_Event" "e1"]
                 (mkMemSB [] false) [ovsdb.mkOperationResult 1 ""]
                 ltac:(reflexivity) ltac:(vm_compute; reflexivity) ltac:(reflexivity)).
  by vm_compute.
Defined.

(** ** Idling again before the grace timer fires *)

Lemma append_cons (c : ascii) (s t : string) : String c s ++ t = String c (s ++ t).
Proof. reflexivity. Qed.

Lemma append_snoc (cur : string) (c : ascii) (s : string) :
  (cur ++ String c "") ++ s = cur ++ String c s.
Proof.
  induction cur as [|d cur IH]; [reflexivity|].
  by rewrite !append_cons, IH.
Qed.

Lemma append_empty_r (s : string) : s ++ "" = s.
Proof. induction s as [|c s IH]; [reflexivity|]. by rewrite append_cons, IH. Qed.

Lemma split_slash_from_no_slash (s cur : string) :
  no_slash s = true → split_slash_from cur s = [cur ++ s].
Proof.
  revert cur. induction s as [|c s IH]; intros cur Hs; simpl in *.
  - by rewrite append_empty_r.
  - apply andb_true_iff in Hs as [Hc Hs].
    apply negb_true_iff in Hc. rewrite Hc.
    by rewrite (IH _ Hs), append_snoc.
Qed.

Lemma split_slash_from_slash (s t cur : string) :
  no_slash s = true →
  split_slash_from cur (s ++ "/" ++ t) = (cur ++ s) :: split_slash_from "" t.
Proof.
  revert cur. induction s as [|c s IH]; intros cur Hs.
  - simpl. by rewrite append_empty_r.
  - simpl in Hs. apply andb_true_iff in Hs as [Hc Hs].
    apply negb_true_iff in Hc.
    rewrite append_cons. simpl. rewrite Hc.
    by rewrite (IH _ Hs), append_snoc.
Qed.

(** A key splits back into the namespace and name it was made from. *)
Lemma SplitMetaNamespaceKey_key (svc : kapi.Service) (key : string) :
  no_slash (kapi.Namespace svc) = true →
  no_slash (kapi.Name svc) = true →
  MetaNamespaceKeyFunc svc = Ok key →
  SplitMetaNamespaceKey key = Ok (kapi.Namespace svc, kapi.Name svc).
Proof.
  intros Hns Hname. unfold MetaNamespaceKeyFunc, SplitMetaNamespaceKey, split_slash.
  destruct (String.eqb_spec (kapi.Namespace svc) "") as [Hempty|_]; intros [= <-].
  - by rewrite Hempty, (split_slash_from_no_slash _ _ Hname).
  - by rewrite (split_slash_from_slash _ _ _ Hns), (split_slash_from_no_slash _ _ Hname).
Qed.

Section MemClusterFacts.
Implicit Types (isc : idleStatusController MemCluster) (c : MemCluster)
               (svc old new : kapi.Service).

(** A write on a cluster that is up and holds the workload. *)
Lemma mem_SetAnnotations_stored c svc stored (annotations : gmap string string) :
  outage c = false →
  objects c !! refOf svc = Some stored →
  mem_SetAnnotations c (kapi.Namespace svc) (kapi.Name svc) annotations =
    (mkMemCluster
       (<[refOf svc :=
            kapi.withAnnotations stored
              (Some (annotations ∪ default ∅ (kapi.Annotations stored)))]> (objects c))
       (calls c ++ [(refOf svc, annotations)]) false,
     None).
Proof.
  intros Hup Hstored. unfold mem_SetAnnotations.
  fold (refOf svc). by rewrite Hup, Hstored.
Qed.

Lemma mem_SetAnnotations_outage c (namespace name : string)
    (annotations : gmap string string) :
  outage (mem_SetAnnotations c namespace name annotations).1 = outage c.
Proof.
  unfold mem_SetAnnotations.
  destruct (outage c) eqn:Hout; [done|].
  by destruct (objects c !! _).
Qed.

Lemma setStatus_outage isc svc (status : string) :
  outage (kube (IdleStatus.setStatus isc svc status).1) = outage (kube isc).
Proof.
  unfold IdleStatus.setStatus.
  pose proof (mem_SetAnnotations_outage (kube isc) (kapi.Namespace svc)
                (kapi.Name svc) {[StatusAnnotation := status]}) as Hout.
  simpl. by destruct (mem_SetAnnotations _ _ _ _).
Qed.

Lemma handled_kube (r : idleStatusController MemCluster * option error) :
  kube (IdleStatus.handled r) = kube r.1.
Proof. unfold IdleStatus.handled. by destruct r as [? [?|]]. Qed.

(** The handlers leave the cluster up when it was. *)
Lemma onServiceUpdate_outage isc old new :
  outage (kube (IdleStatus.onServiceUpdate isc old new)) = outage (kube isc).
Proof.
  unfold IdleStatus.onServiceUpdate.
  destruct (hasIdleAt (Some old) && negb (hasIdleAt (Some new))).
  - rewrite handled_kube. unfold IdleStatus.markServiceAsGracePeriod.
    pose proof (setStatus_outage isc new StatusGracePeriod) as Hout.
    destruct (IdleStatus.setStatus isc new StatusGracePeriod) as [isc' [e|]]; [done|].
    by destruct (MetaNamespaceKeyFunc new).
  - destruct (hasIdleAt (Some new)); [|done].
    rewrite handled_kube. unfold IdleStatus.markServiceAsIdleIfNeeded.
    match goal with |- context [if ?b then _ else _] => destruct b end; [done|].
    apply setStatus_outage.
Qed.

(** Once the marker is back on a stored workload, the stored status is
    [Idle]. *)
Lemma markServiceAsIdleIfNeeded_stored isc svc :
  outage (kube isc) = false →
  objects (kube isc) !! refOf svc = Some svc →
  storedStatus (kube (IdleStatus.handled (IdleStatus.markServiceAsIdleIfNeeded isc svc)))
               (kapi.Namespace svc) (kapi.Name svc) = Some StatusIdle.
Proof.
  intros Hup Hstored. rewrite handled_kube.
  unfold IdleStatus.markServiceAsIdleIfNeeded, storedStatus. fold (refOf svc).
  destruct (kapi.Annotations svc) as [annotations|] eqn:Hann.
  - destruct (annotations !! StatusAnnotation) as [status|] eqn:Hstatus.
    + destruct (String.eqb_spec status StatusIdle) as [->|_].
      * simpl. rewrite Hstored. simpl. by rewrite Hann.
      * unfold IdleStatus.setStatus. simpl.
        rewrite (mem_SetAnnotations_stored _ _ _ _ Hup Hstored). simpl.
        rewrite lookup_insert_eq. simpl.
        apply lookup_union_Some_l, lookup_singleton_eq.
    + unfold IdleStatus.setStatus. simpl.
      rewrite (mem_SetAnnotations_stored _ _ _ _ Hup Hstored). simpl.
      rewrite lookup_insert_eq. simpl.
      apply lookup_union_Some_l, lookup_singleton_eq.
  - unfold IdleStatus.setStatus. simpl.
    rewrite (mem_SetAnnotations_stored _ _ _ _ Hup Hstored). simpl.
    rewrite lookup_insert_eq. simpl.
    apply lookup_union_Some_l, lookup_singleton_eq.
Qed.

(** A released key of a workload stored as [Idle] changes nothing. *)
Lemma processKey_stored_Idle isc (key namespace name : string) :
  SplitMetaNamespaceKey key = Ok (namespace, name) →
  storedStatus (kube isc) namespace name = Some StatusIdle →
  IdleStatus.processKey isc key = (isc, None).
Proof.
  intros Hsplit Hstatus. unfold IdleStatus.processKey. rewrite Hsplit.
  unfold storedStatus in Hstatus. simpl. unfold mem_ServicesGet.
  destruct (objects (kube isc) !! _) as [svc|]; [|done]. simpl in Hstatus.
  unfold IdleStatus.markServiceAsNotIdle.
  destruct (kapi.Annotations svc) as [annotations|]; [|done].
  simpl in Hstatus. by rewrite Hstatus.
Qed.

(** C6: a workload is stored as [Idle] with the idle-request marker
    set; the cluster is up.  An update takes the marker away, which
    stores [GracePeriod] and schedules the grace timer, and a second
    update brings the marker back before the timer fires.  Then the
    stored status is [Idle], and when the queue later releases the
    workload's key the controller writes nothing and reports nothing:
    only the queue has moved. *)
Theorem reidled_before_grace_expiry isc (idle unidled old reidled : kapi.Service)
    (key : string) :
  outage (kube isc) = false →
  objects (kube isc) !! refOf idle = Some idle →
  hasIdleAt (Some idle) = true →
  GetIdleStatus idle = StatusIdle →
  refOf unidled = refOf idle → hasIdleAt (Some unidled) = false →
  refOf reidled = refOf idle →
  hasIdleAt (Some old) = false → hasIdleAt (Some reidled) = true →
  no_slash (kapi.Namespace idle) = true → no_slash (kapi.Name idle) = true →
  MetaNamespaceKeyFunc idle = Ok key →
  let isc1 :=
    IdleStatus.onServiceUpdate
      (IdleStatus.withKube isc (apiUpdate unidled (kube isc))) idle unidled in
  let isc2 :=
    IdleStatus.onServiceUpdate
      (IdleStatus.withKube isc1 (apiUpdate reidled (kube isc1))) old reidled in
  (storedStatus (kube isc1) (kapi.Namespace idle) (kapi.Name idle)
     = Some StatusGracePeriod ∧
   gracePeriodQueue isc1 =
     workqueue.AddAfter (gracePeriodQueue isc) key (gracePeriod isc)) ∧
  storedStatus (kube isc2) (kapi.Namespace idle) (kapi.Name idle) = Some StatusIdle ∧
  ∀ q q', workqueue.Get q = Some (q', Some key, false) →
          IdleStatus.processNextWorkItem (IdleStatus.withQueue isc2 q) =
            Some (IdleStatus.withQueue isc2 q', true).
Proof.
  intros Hup _ Hidle _ Hunidled Hmarker Hreidled Hold Hnew Hns Hname Hkey isc1 isc2.
  assert (outage (kube isc1) = false) as Hup1.
  { unfold isc1. by rewrite onServiceUpdate_outage. }
  assert (storedStatus (kube isc2) (kapi.Namespace idle) (kapi.Name idle)
          = Some StatusIdle) as Hstored.
  { unfold isc2, IdleStatus.onServiceUpdate. rewrite Hold, Hnew. simpl.
    injection Hreidled as <- <-.
    apply markServiceAsIdleIfNeeded_stored; simpl; [done|].
    apply lookup_insert_eq. }
  split; [|split; [exact Hstored|]].
  - assert (MetaNamespaceKeyFunc unidled = Ok key) as Hkey'.
    { revert Hkey. unfold MetaNamespaceKeyFunc.
      by injection Hunidled as -> ->. }
    unfold isc1, IdleStatus.onServiceUpdate. rewrite Hidle, Hmarker. simpl.
    erewrite markServiceAsGracePeriod_reply; [| |exact Hkey'].
    2:{ simpl. apply mem_SetAnnotations_stored; [done|].
        simpl. apply lookup_insert_eq. }
    simpl. split; [|reflexivity].
    unfold storedStatus. fold (refOf idle). rewrite <- Hunidled. simpl.
    rewrite lookup_insert_eq. simpl.
    apply lookup_union_Some_l, lookup_singleton_eq.
  - intros q q' Hget. unfold IdleStatus.processNextWorkItem. simpl.
    rewrite Hget. simpl.
    erewrite processKey_stored_Idle;
      [reflexivity | by apply (SplitMetaNamespaceKey_key idle) | exact Hstored].
Qed.

End MemClusterFacts.

Lemma reidled_before_grace_expiry_witness :
  let isc := Sample.controllerOn (Sample.clusterWith (Sample.idled StatusIdle) false)
                                 workqueue.NewDelayingQueue in
  let isc1 :=
    IdleStatus.onServiceUpdate
      (IdleStatus.withKube isc (apiUpdate (Sample.unidled StatusIdle) (kube isc)))
      (Sample.idled StatusIdle) (Sample.unidled StatusIdle) in
  let isc2 :=
    IdleStatus.onServiceUpdate
      (IdleStatus.withKube isc1 (apiUpdate (Sample.idled StatusGracePeriod) (kube isc1)))
      (Sample.unidled StatusGracePeriod) (Sample.idled StatusGracePeriod) in
  storedStatus (kube isc2) "ns" "svc" = Some StatusIdle ∧
  (kube <$> (fst <$> IdleStatus.processNextWorkItem
                       (IdleStatus.withQueue isc2 Sample.expired))) = Some (kube isc2).
Proof.
  cbv zeta.
  destruct (reidled_before_grace_expiry
              (Sample.controllerOn (Sample.clusterWith (Sample.idled StatusIdle) false)
                                   workqueue.NewDelayingQueue)
              (Sample.idled StatusIdle) (Sample.unidled StatusIdle)
              (Sample.unidled StatusGracePeriod) (Sample.idled StatusGracePeriod)
              "ns/svc"
              ltac:(reflexivity) ltac:(vm_compute; reflexivity)
              ltac:(vm_compute; reflexivity) ltac:(vm_compute; reflexivity)
              ltac:(reflexivity) ltac:(vm_compute; reflexivity)
              ltac:(reflexivity) ltac:(vm_compute; reflexivity)
              ltac:(vm_compute; reflexivity) ltac:(reflexivity)
              ltac:(reflexivity) ltac:(reflexivity))
    as (_ & Hstored & Hexpiry).
  split; [exact Hstored|].
  by rewrite (Hexpiry Sample.expired _ ltac:(vm_compute; reflexivity)).
Defined.

(** ** The VIP registry under workload notifications *)

Lemma lookup_foldl_insert `{Countable Key} {V : Type} (keys : list Key) (v : V)
    (m : gmap Key V) (k : Key) :
  foldl (λ m k, <[k := v]> m) m keys !! k =
    if decide (k ∈ keys) then Some v else m !! k.
Proof.
  revert m. induction keys as [|k' keys IH]; intros m.
  - cbn [foldl]. rewrite decide_False; [done | apply not_elem_of_nil].
  - cbn [foldl]. rewrite IH.
    destruct (decide (k ∈ keys)) as [Hin|Hnotin].
    + rewrite decide_True; [done | apply elem_of_cons; by right].
    + destruct (decide (k = k')) as [->|Hne].
      * rewrite decide_True; [apply lookup_insert_eq | apply elem_of_cons; by left].
      * rewrite decide_False; [by apply lookup_insert_ne | by apply not_elem_of_cons].
Qed.

Lemma lookup_foldl_delete `{Countable Key} {V : Type} (keys : list Key)
    (m : gmap Key V) (k : Key) :
  foldl (λ m k, delete k m) m keys !! k =
    if decide (k ∈ keys) then None else m !! k.
Proof.
  revert m. induction keys as [|k' keys IH]; intros m.
  - cbn [foldl]. rewrite decide_False; [done | apply not_elem_of_nil].
  - cbn [foldl]. rewrite IH.
    destruct (decide (k ∈ keys)) as [Hin|Hnotin].
    + rewrite decide_True; [done | apply elem_of_cons; by right].
    + destruct (decide (k = k')) as [->|Hne].
      * rewrite decide_True; [apply lookup_delete_eq | apply elem_of_cons; by left].
      * rewrite decide_False; [by apply lookup_delete_ne | by apply not_elem_of_cons].
Qed.

Section RegistryFacts.
Context `{!Util} {S : Type} `{!SBClient S}.
Implicit Types (uc : unidlingController S) (svc old new : kapi.Service)
               (live : gmap NamespacedName kapi.ServiceSpec)
               (reg : gmap ServiceVIPKey NamespacedName).

(** The two loops visit the pairs of [serviceVIPs], in order. *)
Lemma forEachVIP_serviceVIPs (spec : kapi.ServiceSpec)
    (body : unidlingController S → string → string → unidlingController S) uc :
  Unidling.forEachVIP spec body uc =
    foldl (λ uc k, body uc (vip k) (protocol k)) uc (serviceVIPs spec).
Proof.
  unfold Unidling.forEachVIP, serviceVIPs.
  destruct (ServiceTypeHasClusterIP spec && IsClusterIPSet spec); [|reflexivity].
  revert uc. induction (GetClusterIPs spec) as [|ip ips IH]; intros uc; [reflexivity|].
  rewrite bind_cons, foldl_app. simpl. rewrite IH. f_equal.
  generalize (kapi.Ports spec) as ports. clear.
  intros ports. revert uc. induction ports as [|p ports IH]; intros uc; [reflexivity|].
  rewrite bind_cons. simpl. by rewrite IH.
Qed.

Lemma registry_after_adds (keys : list ServiceVIPKey) (namespace name : string) uc :
  serviceVIPToName
    (foldl (λ uc k, Unidling.AddServiceVIPToName uc (vip k) (protocol k) namespace name)
           uc keys) =
  foldl (λ reg k, <[k := mkNamespacedName namespace name]> reg)
        (serviceVIPToName uc) keys.
Proof.
  revert uc. induction keys as [|[v p] keys IH]; intros uc; [reflexivity|].
  simpl. by rewrite IH.
Qed.

Lemma registry_after_deletes (keys : list ServiceVIPKey) uc :
  serviceVIPToName
    (foldl (λ uc k, Unidling.DeleteServiceVIPToName uc (vip k) (protocol k)) uc keys) =
  foldl (λ reg k, delete k reg) (serviceVIPToName uc) keys.
Proof.
  revert uc. induction keys as [|[v p] keys IH]; intros uc; [reflexivity|].
  simpl. by rewrite IH.
Qed.

(** Aligning the status annotation leaves the registry alone. *)
Lemma alignIdleStatusAnnotation_registry uc svc :
  serviceVIPToName (Unidling.alignIdleStatusAnnotation uc svc).1.1 = serviceVIPToName uc.
Proof.
  unfold Unidling.alignIdleStatusAnnotation.
  repeat match goal with
         | |- context [match ?x with _ => _ end] => destruct x; try reflexivity
         end.
Qed.

Lemma onServiceAdd_registry uc svc :
  serviceVIPToName (Unidling.onServiceAdd uc svc).1 =
    foldl (λ reg k, <[k := refOf svc]> reg) (serviceVIPToName uc)
          (serviceVIPs (kapi.Spec svc)).
Proof.
  unfold Unidling.onServiceAdd.
  rewrite forEachVIP_serviceVIPs.
  match goal with
  | |- context [Unidling.alignIdleStatusAnnotation ?u ?s] =>
      pose proof (alignIdleStatusAnnotation_registry u s) as Halign;
      destruct (Unidling.alignIdleStatusAnnotation u s) as [[uc' svc'] err]
  end.
  simpl in *. rewrite Halign. apply registry_after_adds.
Qed.

Lemma onServiceDelete_registry uc (obj : WatchObj) :
  serviceVIPToName (Unidling.onServiceDelete uc obj) =
    match deletedService obj with
    | Some svc =>
        foldl (λ reg k, delete k reg) (serviceVIPToName uc) (serviceVIPs (kapi.Spec svc))
    | None => serviceVIPToName uc
    end.
Proof.
  destruct obj as [svc|[svc|]|]; simpl; try reflexivity;
    by rewrite forEachVIP_serviceVIPs, registry_after_deletes.
Qed.

Lemma reflects_add reg live (ref : NamespacedName) (spec : kapi.ServiceSpec) :
  reflects reg live →
  live !! ref = None →
  unshared live ref spec →
  reflects (foldl (λ reg k, <[k := ref]> reg) reg (serviceVIPs spec))
           (<[ref := spec]> live).
Proof.
  intros Hreg Hfresh Hunshared k ref'. rewrite lookup_foldl_insert.
  destruct (decide (k ∈ serviceVIPs spec)) as [Hin|Hnotin].
  - split.
    + intros [= <-]. exists spec. by rewrite lookup_insert_eq.
    + intros (spec' & Hlive & Hin').
      destruct (decide (ref' = ref)) as [->|Hne]; [done|].
      rewrite lookup_insert_ne in Hlive by done.
      destruct (Hunshared _ _ Hlive) as [?|Hall]; [done|].
      rewrite Forall_forall in Hall. by destruct (Hall k Hin).
  - rewrite (Hreg k ref'). split.
    + intros (spec' & Hlive & Hin'). exists spec'. split; [|done].
      rewrite lookup_insert_ne; [done|]. by intros <-; rewrite Hfresh in Hlive.
    + intros (spec' & Hlive & Hin').
      destruct (decide (ref = ref')) as [<-|Hne].
      * rewrite lookup_insert_eq in Hlive. by injection Hlive as <-.
      * rewrite lookup_insert_ne in Hlive by done. eauto.
Qed.

Lemma reflects_delete reg live (ref : NamespacedName) (spec : kapi.ServiceSpec) :
  reflects reg live →
  live !! ref = Some spec →
  reflects (foldl (λ reg k, delete k reg) reg (serviceVIPs spec)) (delete ref live).
Proof.
  intros Hreg Hlive k ref'. rewrite lookup_foldl_delete.
  destruct (decide (k ∈ serviceVIPs spec)) as [Hin|Hnotin].
  - split; [done|].
    intros (spec' & Hlive' & Hin').
    destruct (decide (ref = ref')) as [<-|Hne]; [by rewrite lookup_delete_eq in Hlive'|].
    rewrite lookup_delete_ne in Hlive' by done.
    assert (reg !! k = Some ref) as Href by (apply Hreg; eauto).
    assert (reg !! k = Some ref') as Href' by (apply Hreg; eauto).
    congruence.
  - rewrite (Hreg k ref'). split.
    + intros (spec' & Hlive' & Hin'). exists spec'. split; [|done].
      rewrite lookup_delete_ne; [done|]. intros <-. congruence.
    + intros (spec' & Hlive' & Hin').
      destruct (decide (ref = ref')) as [<-|Hne]; [by rewrite lookup_delete_eq in Hlive'|].
      rewrite lookup_delete_ne in Hlive' by done. eauto.
Qed.

Lemma unshared_delete live (ref ref' : NamespacedName) (spec : kapi.ServiceSpec) :
  unshared live ref spec → unshared (delete ref' live) ref spec.
Proof. apply map_Forall_delete. Qed.

(** One deliverable notification keeps the registry in step. *)
Lemma serviceHandler_reflects uc live (n : Unidling.ServiceNotification) :
  reflects (serviceVIPToName uc) live →
  deliverable live n →
  reflects (serviceVIPToName (Unidling.serviceHandler uc n)) (observe live n).
Proof.
  intros Hreg Hn.
  destruct n as [svc|old new|obj];
    cbn [Unidling.serviceHandler observe deliverable] in *.
  - destruct Hn as [Hfresh Hunshared].
    rewrite onServiceAdd_registry. by apply reflects_add.
  - destruct Hn as (Href & Hold & Hunshared).
    rewrite onServiceAdd_registry, onServiceDelete_registry.
    cbn [deletedService].
    rewrite Href. apply reflects_add.
    + by apply reflects_delete.
    + apply lookup_delete_eq.
    + apply unshared_delete. by rewrite <- Href.
  - destruct Hn as (svc & Hobj & Hlive).
    rewrite onServiceDelete_registry, Hobj.
    by apply (reflects_delete _ _ _ _ Hreg Hlive).
Qed.

Lemma serviceHandlers_reflect (ns : list Unidling.ServiceNotification) uc live :
  reflects (serviceVIPToName uc) live →
  deliverable_trace live ns →
  reflects (serviceVIPToName (foldl Unidling.serviceHandler uc ns))
           (foldl observe live ns).
Proof.
  revert uc live. induction ns as [|n ns IH]; intros uc live Hreg Htrace; [done|].
  destruct Htrace as [Hn Htrace]. simpl.
  apply IH; [|done]. by apply serviceHandler_reflects.
Qed.

(** C5, as the code has it.  Start from an empty registry and deliver
    any sequence of add, update and delete notifications in which an
    add is for a new workload, an update and a delete carry the spec
    last observed, and no two existing workloads derive the same (vip,
    protocol) pair.  Then the registry holds exactly the (vip, protocol)
    → workload entries derivable from the most recent spec of each
    still-existing workload.  An update, deliverable or not, first
    removes the entries of the old object, then inserts those of the new
    one. *)
Theorem registry_reflects_workloads uc (ns : list Unidling.ServiceNotification) :
  serviceVIPToName uc = ∅ →
  deliverable_trace ∅ ns →
  (∀ k ref,
     serviceVIPToName (foldl Unidling.serviceHandler uc ns) !! k = Some ref ↔
     ∃ spec, foldl observe ∅ ns !! ref = Some spec ∧ k ∈ serviceVIPs spec) ∧
  (∀ uc' old new,
     serviceVIPToName (Unidling.serviceHandler uc' (Unidling.NotifyUpdate old new)) =
       foldl (λ reg k, <[k := refOf new]> reg)
             (foldl (λ reg k, delete k reg) (serviceVIPToName uc')
                    (serviceVIPs (kapi.Spec old)))
             (serviceVIPs (kapi.Spec new))).
Proof.
  intros Hempty Htrace. split.
  - apply serviceHandlers_reflect; [|done].
    rewrite Hempty. intros k ref. rewrite lookup_empty.
    split; [done|]. by intros (spec & Hlive & _).
  - intros uc' old new. cbn [Unidling.serviceHandler].
    by rewrite onServiceAdd_registry, onServiceDelete_registry.
Qed.

End RegistryFacts.

(** *** The registry with the modelled helpers *)

Lemma registry_reflects_workloads_witness :
  serviceVIPToName
    (foldl Unidling.serviceHandler (Sample.bridge ∅ [] false) Sample.portChange)
    !! mkServiceVIPKey "10.0.0.5:8080" kapi.ProtocolTCP
  = Some (mkNamespacedName "ns" "svc").
Proof.
  apply (proj1 (@registry_reflects_workloads model_Util MemSB
                  (Sample.bridge ∅ [] false) Sample.portChange eq_refl
                  ltac:(repeat split;
                        try apply map_Forall_insert_2;
                        try apply map_Forall_empty;
                        by left))).
  exists Sample.spec8080. split; [by vm_compute|].
  vm_compute. by left.
Defined.

(** C5 as stated fails on a sequence in which two workloads derive the
    same (vip, protocol) pair: deleting the second one removes the pair,
    and the first workload, which still exists, has no entry left. *)
Lemma registry_shared_vip_lost :
  serviceVIPs (kapi.Spec Sample.bare) = [mkServiceVIPKey "10.0.0.5:80" kapi.ProtocolUDP] ∧
  foldl observe ∅ Sample.sharedVIP !! refOf Sample.bare = Some (kapi.Spec Sample.bare) ∧
  serviceVIPToName
    (foldl Unidling.serviceHandler (Sample.bridge ∅ [] false) Sample.sharedVIP)
    !! mkServiceVIPKey "10.0.0.5:80" kapi.ProtocolUDP = None.
Proof. by vm_compute. Qed.

(** * Further properties *)

(** ** The idle-request marker *)

Lemma length_append (p s : string) :
  String.length (p ++ s) = String.length p + String.length s.
Proof. induction p as [|c p IH]; [reflexivity|]. rewrite append_cons. simpl. by rewrite IH. Qed.

Lemma substring_whole (s : string) : substring 0 (String.length s) s = s.
Proof. induction s as [|c s IH]; [reflexivity|]. simpl. by rewrite IH. Qed.

Lemma substring_after_prefix (p s : string) (m : nat) :
  substring (String.length p) m (p ++ s) = substring 0 m s.
Proof. induction p as [|c p IH]; [reflexivity|]. rewrite append_cons. simpl. apply IH. Qed.

Lemma substring_split (s : string) (n : nat) :
  (n ≤ String.length s)%nat →
  s = substring 0 n s ++ substring n (String.length s - n) s.
Proof.
  revert n. induction s as [|c s IH]; intros n Hn; simpl in Hn.
  - by replace n with 0 by lia.
  - destruct n as [|n].
    + simpl. by rewrite substring_whole.
    + simpl. rewrite append_cons. f_equal. apply IH. lia.
Qed.

(** [HasSuffix s suffix] holds exactly when [s] ends with [suffix]. *)
Lemma HasSuffix_ends (s suffix : string) :
  HasSuffix s suffix = true ↔ ∃ prefix, s = prefix ++ suffix.
Proof.
  unfold HasSuffix. rewrite andb_true_iff, Nat.leb_le, String.eqb_eq. split.
  - intros [Hlen Hsub].
    exists (substring 0 (String.length s - String.length suffix) s).
    rewrite (substring_split s (String.length s - String.length suffix)) at 1 by lia.
    f_equal.
    replace (String.length s - (String.length s - String.length suffix))
      with (String.length suffix) by lia.
    exact Hsub.
  - intros [prefix ->]. rewrite length_append. split; [lia|].
    replace (String.length prefix + String.length suffix - String.length suffix)
      with (String.length prefix) by lia.
    by rewrite substring_after_prefix, substring_whole.
Qed.

(** The loop over the annotation keys finds a key with the idled
    suffix exactly when the map has one. *)
Lemma marker_in_map (annotations : gmap string string) :
  existsb (λ kv, HasSuffix kv.1 OvnServiceIdledSuffix) (map_to_list annotations) = true ↔
  ∃ key value, annotations !! key = Some value ∧
               HasSuffix key OvnServiceIdledSuffix = true.
Proof.
  rewrite existsb_exists. split.
  - intros ([key value] & Hin & Hsuffix).
    exists key, value. split; [|done].
    by apply elem_of_map_to_list, list_elem_of_In.
  - intros (key & value & Hlookup & Hsuffix).
    exists (key, value). split; [|done].
    by apply list_elem_of_In, elem_of_map_to_list.
Qed.

(** X1: [hasIdleAt] is true exactly for a non-nil service whose
    annotation map is not nil and holds at least one key that ends with
    ["idled-at"], whatever the value and whatever else the map holds. *)
Theorem hasIdleAt_ends_with_suffix (svc : option kapi.Service) :
  hasIdleAt svc = true ↔
  ∃ s annotations key value prefix,
    svc = Some s ∧ kapi.Annotations s = Some annotations ∧
    annotations !! key = Some value ∧ key = prefix ++ "idled-at".
Proof.
  unfold hasIdleAt. split.
  - destruct svc as [s|]; [|done].
    destruct (kapi.Annotations s) as [annotations|] eqn:Hann; [|done].
    intros (key & value & Hlookup & [prefix ->]%HasSuffix_ends)%marker_in_map.
    by exists s, annotations, (prefix ++ OvnServiceIdledSuffix), value, prefix.
  - intros (s & annotations & key & value & prefix & -> & -> & Hlookup & ->).
    apply marker_in_map. exists (prefix ++ "idled-at"), value.
    split; [done|]. apply HasSuffix_ends. by exists prefix.
Qed.

(** ** The VIP registry, operation by operation *)

Section RegistryOperations.
Context `{!Util} {S : Type} `{!SBClient S}.
Implicit Types (uc : unidlingController S) (svc : kapi.Service) (k : ServiceVIPKey).

(** X2: the registry is a map keyed by the pair (vip, protocol).  A
    lookup after [AddServiceVIPToName] gives the name just stored for
    that very pair and what was there before for any other pair, the
    same vip under another protocol included; a lookup after
    [DeleteServiceVIPToName] misses for that pair and is as before for
    any other. *)
Theorem registry_get_after_add_delete uc (v p namespace name v' p' : string) :
  Unidling.GetServiceVIPToName
    (Unidling.AddServiceVIPToName uc v p namespace name) v' p' =
    (if decide (v = v' ∧ p = p') then Some (mkNamespacedName namespace name)
     else Unidling.GetServiceVIPToName uc v' p') ∧
  Unidling.GetServiceVIPToName (Unidling.DeleteServiceVIPToName uc v p) v' p' =
    (if decide (v = v' ∧ p = p') then None
     else Unidling.GetServiceVIPToName uc v' p').
Proof.
  unfold Unidling.GetServiceVIPToName, Unidling.AddServiceVIPToName,
    Unidling.DeleteServiceVIPToName. simpl.
  destruct (decide (v = v' ∧ p = p')) as [[-> ->]|Hne].
  - by rewrite lookup_insert_eq, lookup_delete_eq.
  - assert (mkServiceVIPKey v p ≠ mkServiceVIPKey v' p') as Hkey
      by (intros [= -> ->]; by apply Hne).
    by rewrite lookup_insert_ne, lookup_delete_ne.
Qed.

(** X3: after [onServiceAdd], each (vip, protocol) pair built from a
    cluster address and a port of the service resolves to the service's
    namespace and name, replacing whatever owned it, and every other
    pair resolves as before. *)
Theorem onServiceAdd_resolves uc svc k :
  serviceVIPToName (Unidling.onServiceAdd uc svc).1 !! k =
    if decide (k ∈ serviceVIPs (kapi.Spec svc)) then Some (refOf svc)
    else serviceVIPToName uc !! k.
Proof. rewrite onServiceAdd_registry. apply lookup_foldl_insert. Qed.

(** X4: [onServiceDelete] on a service, or on a tombstone around one,
    removes each pair derived from that service, whoever owns it, keeps
    every other pair and reports nothing; on any other object it keeps
    the registry and reports one error. *)
Theorem onServiceDelete_removes uc (obj : WatchObj) :
  (∀ svc, deletedService obj = Some svc →
     (∀ k, serviceVIPToName (Unidling.onServiceDelete uc obj) !! k =
             if decide (k ∈ serviceVIPs (kapi.Spec svc)) then None
             else serviceVIPToName uc !! k) ∧
     uc_handledErrors (Unidling.onServiceDelete uc obj) = uc_handledErrors uc) ∧
  (deletedService obj = None →
     serviceVIPToName (Unidling.onServiceDelete uc obj) = serviceVIPToName uc ∧
     ∃ e, uc_handledErrors (Unidling.onServiceDelete uc obj) =
            (uc_handledErrors uc ++ [e])%list).
Proof.
  split.
  - intros svc Hobj. split.
    + intros k. rewrite onServiceDelete_registry, Hobj. apply lookup_foldl_delete.
    + assert (∀ keys uc',
                uc_handledErrors
                  (foldl (λ uc k, Unidling.DeleteServiceVIPToName uc (vip k) (protocol k))
                         uc' keys) = uc_handledErrors uc') as Hframe.
      { induction keys as [|k' keys IH]; intros uc'; [done|]. simpl. by rewrite IH. }
      destruct obj as [svc'|[svc'|]|]; try done; simpl;
        by rewrite forEachVIP_serviceVIPs, Hframe.
  - intros Hobj. destruct obj as [svc|[svc|]|]; try done; simpl; eauto.
Qed.

(** X5: adding a service and then deleting it leaves none of its pairs
    in the registry and every other pair as it was before the add; and
    an update whose old and new object are the same service (a resync)
    leaves the registry as an add of that service does. *)
Theorem onServiceAdd_then_delete uc svc :
  (∀ k, serviceVIPToName
          (Unidling.onServiceDelete (Unidling.onServiceAdd uc svc).1 (ObjService svc)) !! k =
        if decide (k ∈ serviceVIPs (kapi.Spec svc)) then None
        else serviceVIPToName uc !! k) ∧
  serviceVIPToName (Unidling.serviceHandler uc (Unidling.NotifyUpdate svc svc)) =
    serviceVIPToName (Unidling.serviceHandler uc (Unidling.NotifyAdd svc)).
Proof.
  split.
  - intros k. rewrite onServiceDelete_registry. cbn [deletedService].
    rewrite lookup_foldl_delete, onServiceAdd_registry, lookup_foldl_insert.
    by destruct (decide (k ∈ serviceVIPs (kapi.Spec svc))).
  - cbn [Unidling.serviceHandler]. apply map_eq. intros k.
    rewrite !onServiceAdd_registry, onServiceDelete_registry. cbn [deletedService].
    rewrite !lookup_foldl_insert, lookup_foldl_delete.
    by destruct (decide (k ∈ serviceVIPs (kapi.Spec svc))).
Qed.

(** X6: a service whose type has no cluster address, or whose cluster
    address is not set, contributes nothing: adding it or deleting it
    leaves the registry as it was. *)
Theorem no_cluster_address_no_entry uc svc :
  ServiceTypeHasClusterIP (kapi.Spec svc) = false ∨
  IsClusterIPSet (kapi.Spec svc) = false →
  serviceVIPToName (Unidling.onServiceAdd uc svc).1 = serviceVIPToName uc ∧
  serviceVIPToName (Unidling.onServiceDelete uc (ObjService svc)) = serviceVIPToName uc.
Proof.
  intros Hnone.
  assert (serviceVIPs (kapi.Spec svc) = []) as Hkeys.
  { unfold serviceVIPs. destruct Hnone as [-> | ->]; [done|].
    by rewrite andb_false_r. }
  rewrite onServiceAdd_registry, onServiceDelete_registry. cbn [deletedService].
  by rewrite Hkeys.
Qed.

(** The registry loops touch the registry only. *)
Lemma adds_frame (keys : list ServiceVIPKey) (namespace name : string) uc :
  let uc' := foldl (λ uc k, Unidling.AddServiceVIPToName uc (vip k) (protocol k)
                                                       namespace name) uc keys in
  eventRecorder uc' = eventRecorder uc ∧ sbClient uc' = sbClient uc ∧
  uc_gracePeriodQueue uc' = uc_gracePeriodQueue uc ∧
  uc_handledErrors uc' = uc_handledErrors uc.
Proof.
  revert uc. induction keys as [|k keys IH]; intros uc; [done|].
  simpl. by destruct (IH (Unidling.AddServiceVIPToName uc (vip k) (protocol k)
                                                        namespace name))
    as (-> & -> & -> & ->).
Qed.

Lemma deletes_frame (keys : list ServiceVIPKey) uc :
  let uc' := foldl (λ uc k, Unidling.DeleteServiceVIPToName uc (vip k) (protocol k))
                   uc keys in
  eventRecorder uc' = eventRecorder uc ∧ sbClient uc' = sbClient uc ∧
  uc_gracePeriodQueue uc' = uc_gracePeriodQueue uc ∧
  uc_handledErrors uc' = uc_handledErrors uc.
Proof.
  revert uc. induction keys as [|k keys IH]; intros uc; [done|].
  simpl. by destruct (IH (Unidling.DeleteServiceVIPToName uc (vip k) (protocol k)))
    as (-> & -> & -> & ->).
Qed.

Lemma alignIdleStatusAnnotation_frame uc svc :
  let uc' := (Unidling.alignIdleStatusAnnotation uc svc).1.1 in
  eventRecorder uc' = eventRecorder uc ∧ sbClient uc' = sbClient uc ∧
  uc_handledErrors uc' = uc_handledErrors uc.
Proof.
  unfold Unidling.alignIdleStatusAnnotation.
  repeat match goal with
         | |- context [match ?x with _ => _ end] => destruct x; try done
         end.
Qed.

(** X7: no service notification, whatever it carries, records a
    wake-up signal or touches the southbound database; signals come from
    the event bridge alone. *)
Theorem serviceHandler_records_nothing uc (n : Unidling.ServiceNotification) :
  eventRecorder (Unidling.serviceHandler uc n) = eventRecorder uc ∧
  sbClient (Unidling.serviceHandler uc n) = sbClient uc.
Proof.
  assert (∀ uc svc, eventRecorder (Unidling.onServiceAdd uc svc).1 = eventRecorder uc ∧
                    sbClient (Unidling.onServiceAdd uc svc).1 = sbClient uc) as Hadd.
  { intros uc0 svc. unfold Unidling.onServiceAdd. rewrite forEachVIP_serviceVIPs.
    match goal with
    | |- context [Unidling.alignIdleStatusAnnotation ?u ?s] =>
        pose proof (alignIdleStatusAnnotation_frame u s) as (Hrec & Hsb & _);
        destruct (Unidling.alignIdleStatusAnnotation u s) as [[uc1 svc1] err]
    end.
    simpl in *. rewrite Hrec, Hsb.
    by destruct (adds_frame (serviceVIPs (kapi.Spec svc)) (kapi.Namespace svc)
                            (kapi.Name svc) uc0) as (-> & -> & _). }
  assert (∀ uc obj, eventRecorder (Unidling.onServiceDelete uc obj) = eventRecorder uc ∧
                    sbClient (Unidling.onServiceDelete uc obj) = sbClient uc) as Hdel.
  { intros uc0 obj. destruct obj as [svc|[svc|]|]; try done; simpl;
      rewrite forEachVIP_serviceVIPs;
      by destruct (deletes_frame (serviceVIPs (kapi.Spec svc)) uc0) as (-> & -> & _). }
  destruct n as [svc|old new|obj]; cbn [Unidling.serviceHandler].
  - apply Hadd.
  - destruct (Hadd (Unidling.onServiceDelete uc (ObjService old)) new) as [-> ->].
    apply Hdel.
  - apply Hdel.
Qed.

End RegistryOperations.

Lemma no_cluster_address_no_entry_witness :
  serviceVIPToName
    (Unidling.onServiceAdd (Sample.bridge Sample.registry [] false) Sample.headless).1
  = Sample.registry.
Proof.
  apply (proj1 (@no_cluster_address_no_entry model_Util MemSB
                  (Sample.bridge Sample.registry [] false) Sample.headless
                  ltac:(right; reflexivity))).
Defined.

Lemma onServiceDelete_removes_witness :
  serviceVIPToName
    (Unidling.onServiceDelete (Sample.bridge Sample.registry [] false)
                              (ObjTombstone (Some Sample.bare)))
    !! mkServiceVIPKey "10.0.0.5:80" kapi.ProtocolUDP = None ∧
  serviceVIPToName
    (Unidling.onServiceDelete (Sample.bridge Sample.registry [] false) ObjOther)
  = Sample.registry.
Proof.
  split.
  - rewrite (proj1 (proj1 (@onServiceDelete_removes model_Util MemSB
                             (Sample.bridge Sample.registry [] false)
                             (ObjTombstone (Some Sample.bare)))
                          Sample.bare eq_refl)).
    by vm_compute.
  - apply (proj2 (@onServiceDelete_removes model_Util MemSB
                    (Sample.bridge Sample.registry [] false) ObjOther) eq_refl).
Defined.

(** ** Aligning the status annotation on add *)

Lemma marker_of_annotations (svc : kapi.Service) :
  existsb (λ kv, HasSuffix kv.1 OvnServiceIdledSuffix)
          (map_to_list (default ∅ (kapi.Annotations svc))) = hasIdleAt (Some svc).
Proof.
  unfold hasIdleAt. destruct (kapi.Annotations svc); [done|].
  simpl. by rewrite map_to_list_empty.
Qed.

Lemma status_after_setAnnotation (svc : kapi.Service) (status : string) :
  go_lookup (kapi.Annotations (Unidling.setAnnotation svc StatusAnnotation status))
            StatusAnnotation = Some status.
Proof. simpl. apply lookup_insert_eq. Qed.

Lemma others_after_setAnnotation (svc : kapi.Service) (status key : string) :
  key ≠ StatusAnnotation →
  go_lookup (kapi.Annotations (Unidling.setAnnotation svc StatusAnnotation status)) key =
    go_lookup (kapi.Annotations svc) key.
Proof.
  intros Hkey. simpl. rewrite lookup_insert_ne by done.
  destruct (kapi.Annotations svc); [done|]. apply lookup_empty.
Qed.

(** Writing the status annotation neither sets nor clears the marker. *)
Lemma marker_after_setAnnotation (svc : kapi.Service) (status : string) :
  hasIdleAt (Some (Unidling.setAnnotation svc StatusAnnotation status)) =
    hasIdleAt (Some svc).
Proof.
  rewrite <- !marker_of_annotations. simpl.
  apply eq_true_iff_eq. rewrite !marker_in_map. split.
  - intros (key & value & Hlookup & Hsuffix).
    destruct (decide (key = StatusAnnotation)) as [->|Hne]; [done|].
    rewrite lookup_insert_ne in Hlookup by done. eauto.
  - intros (key & value & Hlookup & Hsuffix).
    destruct (decide (key = StatusAnnotation)) as [->|Hne]; [done|].
    exists key, value. by rewrite lookup_insert_ne.
Qed.

Section AlignFacts.
Context {S : Type}.
Implicit Types (uc : unidlingController S) (svc : kapi.Service).

(** [alignIdleStatusAnnotation] by the marker and the stored status. *)
Lemma alignIdleStatusAnnotation_cases uc svc :
  Unidling.alignIdleStatusAnnotation uc svc =
    match go_lookup (kapi.Annotations svc) StatusAnnotation, hasIdleAt (Some svc) with
    | None, true => (uc, Unidling.setAnnotation svc StatusAnnotation StatusIdle, None)
    | None, false => (uc, svc, None)
    | Some status, marker =>
        if String.eqb status StatusIdle then
          if marker then (uc, svc, None)
          else
            (Unidling.uc_withQueue uc
               (workqueue.AddAfter (uc_gracePeriodQueue uc)
                  (if String.eqb (kapi.Namespace svc) "" then kapi.Name svc
                   else kapi.Namespace svc ++ "/" ++ kapi.Name svc)
                  GracePeriodDuration),
             Unidling.setAnnotation svc StatusAnnotation StatusGracePeriod, None)
        else if String.eqb status StatusNotIdle || String.eqb status StatusGracePeriod then
          if marker then (uc, Unidling.setAnnotation svc StatusAnnotation StatusIdle, None)
          else (uc, svc, None)
        else (uc, svc, None)
    end.
Proof.
  unfold Unidling.alignIdleStatusAnnotation.
  rewrite marker_of_annotations.
  destruct (go_lookup (kapi.Annotations svc) StatusAnnotation) as [status|];
    [|by destruct (hasIdleAt (Some svc))].
  destruct (String.eqb status StatusIdle).
  - destruct (hasIdleAt (Some svc)); [done|].
    unfold MetaNamespaceKeyFunc. simpl.
    by destruct (String.eqb (kapi.Namespace svc) "").
  - destruct (String.eqb status StatusNotIdle), (String.eqb status StatusGracePeriod),
      (hasIdleAt (Some svc)); done.
Qed.

(** X8: [alignIdleStatusAnnotation] changes nothing of the service but
    the status annotation: namespace, name and spec stay, every other
    annotation reads as before, and the idle-request marker is neither
    set nor cleared.  It never returns an error. *)
Theorem alignIdleStatusAnnotation_only_status uc svc :
  let svc' := (Unidling.alignIdleStatusAnnotation uc svc).1.2 in
  kapi.Namespace svc' = kapi.Namespace svc ∧
  kapi.Name svc' = kapi.Name svc ∧
  kapi.Spec svc' = kapi.Spec svc ∧
  (∀ key, key ≠ StatusAnnotation →
          go_lookup (kapi.Annotations svc') key = go_lookup (kapi.Annotations svc) key) ∧
  hasIdleAt (Some svc') = hasIdleAt (Some svc) ∧
  (Unidling.alignIdleStatusAnnotation uc svc).2 = None.
Proof.
  rewrite alignIdleStatusAnnotation_cases.
  destruct (go_lookup (kapi.Annotations svc) StatusAnnotation) as [status|],
    (hasIdleAt (Some svc)) eqn:Hmarker;
    repeat match goal with
           | |- context [if ?b then _ else _] => destruct b
           end;
    cbv zeta; cbn [fst snd];
    repeat split;
    try done;
    try (intros key Hkey; by apply others_after_setAnnotation);
    by rewrite marker_after_setAnnotation.
Qed.

(** X9: for a service that carries the idle-request marker,
    [alignIdleStatusAnnotation] schedules nothing and leaves the object
    with status [Idle] when the status was absent, [Idle], [NotIdle] or
    [GracePeriod]; a status outside those three values is left as it
    is. *)
Theorem alignIdleStatusAnnotation_idled uc svc :
  hasIdleAt (Some svc) = true →
  (Unidling.alignIdleStatusAnnotation uc svc).1.1 = uc ∧
  (go_lookup (kapi.Annotations svc) StatusAnnotation = None ∨
   go_lookup (kapi.Annotations svc) StatusAnnotation = Some StatusIdle ∨
   go_lookup (kapi.Annotations svc) StatusAnnotation = Some StatusNotIdle ∨
   go_lookup (kapi.Annotations svc) StatusAnnotation = Some StatusGracePeriod →
   go_lookup (kapi.Annotations (Unidling.alignIdleStatusAnnotation uc svc).1.2)
             StatusAnnotation = Some StatusIdle) ∧
  (∀ status,
     go_lookup (kapi.Annotations svc) StatusAnnotation = Some status →
     status ≠ StatusIdle → status ≠ StatusNotIdle → status ≠ StatusGracePeriod →
     (Unidling.alignIdleStatusAnnotation uc svc).1.2 = svc).
Proof.
  intros Hmarker. rewrite alignIdleStatusAnnotation_cases, Hmarker.
  destruct (go_lookup (kapi.Annotations svc) StatusAnnotation) as [status|] eqn:Hstatus.
  - destruct (String.eqb_spec status StatusIdle) as [->|Hidle].
    { split; [done|]. split; [done|]. by intros ? [= <-]. }
    destruct (String.eqb_spec status StatusNotIdle) as [->|Hnotidle].
    { split; [done|]. split; [intros _; apply status_after_setAnnotation|].
      by intros ? [= <-]. }
    destruct (String.eqb_spec status StatusGracePeriod) as [->|Hgrace].
    { split; [done|]. split; [intros _; apply status_after_setAnnotation|].
      by intros ? [= <-]. }
    split; [done|]. split; [|done].
    intros [?|[[= ?]|[[= ?]|[= ?]]]]; done.
  - split; [done|]. split; [|done]. intros _. apply status_after_setAnnotation.
Qed.

(** X10: for a service without the idle-request marker,
    [alignIdleStatusAnnotation] acts only on status [Idle]: the object
    gets status [GracePeriod] and the service's key is put on the delay
    queue for [GracePeriodDuration], thirty seconds.  With any other
    status, or none, neither the object nor the controller changes. *)
Theorem alignIdleStatusAnnotation_unidled uc svc :
  hasIdleAt (Some svc) = false →
  (go_lookup (kapi.Annotations svc) StatusAnnotation = Some StatusIdle →
   ∃ key,
     MetaNamespaceKeyFunc svc = Ok key ∧
     Unidling.alignIdleStatusAnnotation uc svc =
       (Unidling.uc_withQueue uc
          (workqueue.AddAfter (uc_gracePeriodQueue uc) key (30 * Second)%Z),
        Unidling.setAnnotation svc StatusAnnotation StatusGracePeriod, None)) ∧
  (go_lookup (kapi.Annotations svc) StatusAnnotation ≠ Some StatusIdle →
   Unidling.alignIdleStatusAnnotation uc svc = (uc, svc, None)).
Proof.
  intros Hmarker. rewrite alignIdleStatusAnnotation_cases, Hmarker. split.
  - intros ->. eexists. split; [apply MetaNamespaceKeyFunc_key|done].
  - intros Hstatus.
    destruct (go_lookup (kapi.Annotations svc) StatusAnnotation) as [status|]; [|done].
    destruct (String.eqb_spec status StatusIdle) as [->|_]; [done|].
    by destruct (_ || _).
Qed.

(** X11: [alignIdleStatusAnnotation] settles in one step: applied to the
    controller and the object it returns, it changes neither again and
    schedules no second timer. *)
Theorem alignIdleStatusAnnotation_settles uc svc :
  let r := Unidling.alignIdleStatusAnnotation uc svc in
  Unidling.alignIdleStatusAnnotation r.1.1 r.1.2 = (r.1.1, r.1.2, None).
Proof.
  cbv zeta. rewrite (alignIdleStatusAnnotation_cases uc svc).
  destruct (go_lookup (kapi.Annotations svc) StatusAnnotation) as [status|] eqn:Hstatus,
    (hasIdleAt (Some svc)) eqn:Hmarker.
  - destruct (String.eqb_spec status StatusIdle) as [->|Hidle].
    { cbn [fst snd]. rewrite alignIdleStatusAnnotation_cases, Hstatus, Hmarker. done. }
    destruct (String.eqb status StatusNotIdle || String.eqb status StatusGracePeriod)
      eqn:Hknown; cbn [fst snd]; rewrite alignIdleStatusAnnotation_cases.
    + by rewrite status_after_setAnnotation, marker_after_setAnnotation, Hmarker.
    + rewrite Hstatus, Hmarker, Hknown.
      by destruct (String.eqb_spec status StatusIdle).
  - destruct (String.eqb_spec status StatusIdle) as [->|Hidle].
    { cbn [fst snd]. rewrite alignIdleStatusAnnotation_cases.
      by rewrite status_after_setAnnotation, marker_after_setAnnotation, Hmarker. }
    destruct (String.eqb status StatusNotIdle || String.eqb status StatusGracePeriod)
      eqn:Hknown; cbn [fst snd]; rewrite alignIdleStatusAnnotation_cases;
      rewrite Hstatus, Hmarker, ?Hknown;
      by destruct (String.eqb_spec status StatusIdle).
  - cbn [fst snd]. rewrite alignIdleStatusAnnotation_cases.
    by rewrite status_after_setAnnotation, marker_after_setAnnotation, Hmarker.
  - cbn [fst snd]. by rewrite alignIdleStatusAnnotation_cases, Hstatus, Hmarker.
Qed.

End AlignFacts.

Lemma alignIdleStatusAnnotation_idled_witness :
  go_lookup
    (kapi.Annotations
       (Unidling.alignIdleStatusAnnotation (Sample.bridge ∅ [] false)
                                           (Sample.idled StatusGracePeriod)).1.2)
    StatusAnnotation = Some StatusIdle.
Proof.
  apply (proj1 (proj2 (alignIdleStatusAnnotation_idled
                         (Sample.bridge ∅ [] false) (Sample.idled StatusGracePeriod)
                         ltac:(vm_compute; reflexivity)))).
  right. right. right. vm_compute. reflexivity.
Defined.

Lemma alignIdleStatusAnnotation_unidled_witness :
  Unidling.alignIdleStatusAnnotation (Sample.bridge ∅ [] false) Sample.bare =
    (Sample.bridge ∅ [] false, Sample.bare, None).
Proof.
  apply (proj2 (alignIdleStatusAnnotation_unidled
                  (Sample.bridge ∅ [] false) Sample.bare eq_refl)).
  discriminate.
Defined.

(** ** The event bridge: failures and what it leaves alone *)

Section BridgeEdges.
Context {S : Type} `{!SBClient S}.
Implicit Types (uc : unidlingController S) (event : sbdb.ControllerEvent).

(** X12: whatever the event and whatever the database answers,
    [handleLbEmptyBackendsEvent] leaves the registry, the delay queue
    and the handled errors as they were, and records either nothing or
    one [NeedPods] event; it records one only when it returns no error
    and the registry holds the owner under the event's vip and a
    protocol that is one of TCP, UDP and SCTP. *)
Theorem handleLbEmptyBackendsEvent_at_most_one_signal uc event :
  let r := Unidling.handleLbEmptyBackendsEvent uc event in
  serviceVIPToName r.1 = serviceVIPToName uc ∧
  uc_gracePeriodQueue r.1 = uc_gracePeriodQueue uc ∧
  uc_handledErrors r.1 = uc_handledErrors uc ∧
  (eventRecorder r.1 = eventRecorder uc ∨
   ∃ vip proto owner,
     sbdb.EventInfo event !! "vip" = Some vip ∧
     (proto = kapi.ProtocolTCP ∨ proto = kapi.ProtocolUDP ∨ proto = kapi.ProtocolSCTP) ∧
     serviceVIPToName uc !! mkServiceVIPKey vip proto = Some owner ∧
     eventRecorder r.1 = (eventRecorder uc ++ [Unidling.NeedPods owner])%list ∧
     r.2 = None).
Proof.
  cbv zeta. unfold Unidling.handleLbEmptyBackendsEvent.
  pose proof (deleteEvent_frame uc event) as Hframe.
  destruct (Unidling.deleteEvent uc event) as [uc' [err|]]; simpl in Hframe;
    rewrite Hframe; [by auto|].
  destruct (sbdb.EventInfo event !! "vip") as [vip|] eqn:Hvip; [|by auto].
  unfold Unidling.GetServiceVIPToName. simpl.
  destruct (serviceVIPToName uc !! _) as [owner|] eqn:Howner; [|by auto].
  repeat (split; [done|]). right.
  exists vip, (Unidling.eventProtocol event), owner.
  repeat (split; [done|]). split; [|done].
  unfold Unidling.eventProtocol.
  destruct (String.eqb _ "udp"); [by auto|].
  destruct (String.eqb _ "sctp"); by auto.
Qed.

(** X13: a failure of any of the three database calls of the
    acknowledgement ends [handleLbEmptyBackendsEvent] at once: that
    call's error is returned as it is, nothing is retried, the registry
    is not consulted and no signal is recorded.  When the delete
    operation cannot even be built the controller is untouched. *)
Theorem handleLbEmptyBackendsEvent_delete_failures uc event :
  (∀ e, WhereDelete (sbClient uc) event = Err e →
        Unidling.handleLbEmptyBackendsEvent uc event = (uc, Some e)) ∧
  (∀ op sb e,
     WhereDelete (sbClient uc) event = Ok op →
     Transact (sbClient uc) op = (sb, Err e) →
     Unidling.handleLbEmptyBackendsEvent uc event =
       (mkUC (eventRecorder uc) (serviceVIPToName uc) sb
             (uc_gracePeriodQueue uc) (uc_handledErrors uc), Some e)) ∧
  (∀ op sb result e,
     WhereDelete (sbClient uc) event = Ok op →
     Transact (sbClient uc) op = (sb, Ok result) →
     CheckOperationResults result op = Some e →
     Unidling.handleLbEmptyBackendsEvent uc event =
       (mkUC (eventRecorder uc) (serviceVIPToName uc) sb
             (uc_gracePeriodQueue uc) (uc_handledErrors uc), Some e)).
Proof.
  unfold Unidling.handleLbEmptyBackendsEvent, Unidling.deleteEvent.
  split; [|split].
  - by intros e ->.
  - by intros op sb e -> ->.
  - by intros op sb result e -> -> ->.
Qed.

End BridgeEdges.

(** The store is down while the registry would resolve the event. *)
Lemma handleLbEmptyBackendsEvent_delete_failures_witness :
  let r := Unidling.handleLbEmptyBackendsEvent
             (Sample.bridge Sample.registry [Sample.udpEvent] true) Sample.udpEvent in
  r.2 = Some (ErrMsg "transaction failed") ∧
  eventRecorder r.1 = [] ∧
  rows (sbClient r.1) = [Sample.udpEvent].
Proof.
  cbv zeta.
  rewrite (proj1 (proj2 (@handleLbEmptyBackendsEvent_delete_failures MemSB MemSB_client
                           (Sample.bridge Sample.registry [Sample.udpEvent] true)
                           Sample.udpEvent))
                 [ovsdb.mkOperation "delete" "Controller_Event" "e1"]
                 (mkMemSB [Sample.udpEvent] true) (ErrMsg "transaction failed")
                 eq_refl eq_refl).
  done.
Defined.

(** ** The idle-status handlers *)

Section IdleStatusEdges.
Context {K : Type} `{!KubeInterface K} `{!ServiceLister K}.
Implicit Types (isc : idleStatusController K) (svc old new : kapi.Service).

Lemma setStatus_frame isc svc (status : string) :
  let isc' := (IdleStatus.setStatus isc svc status).1 in
  gracePeriodQueue isc' = gracePeriodQueue isc ∧
  gracePeriod isc' = gracePeriod isc ∧
  handledErrors isc' = handledErrors isc.
Proof.
  unfold IdleStatus.setStatus.
  by destruct (SetAnnotationsOnService _ _ _ _).
Qed.

Lemma handled_frame (r : idleStatusController K * option error) :
  gracePeriodQueue (IdleStatus.handled r) = gracePeriodQueue r.1 ∧
  gracePeriod (IdleStatus.handled r) = gracePeriod r.1 ∧
  kube (IdleStatus.handled r) = kube r.1 ∧
  ∃ es, handledErrors (IdleStatus.handled r) = (handledErrors r.1 ++ es)%list.
Proof.
  unfold IdleStatus.handled. destruct r as [isc [e|]]; simpl.
  - repeat split. by exists [e].
  - repeat split. exists []. by rewrite app_nil_r.
Qed.

Lemma markServiceAsIdleIfNeeded_frame isc svc :
  let isc' := (IdleStatus.markServiceAsIdleIfNeeded isc svc).1 in
  gracePeriodQueue isc' = gracePeriodQueue isc ∧
  gracePeriod isc' = gracePeriod isc ∧
  handledErrors isc' = handledErrors isc.
Proof.
  unfold IdleStatus.markServiceAsIdleIfNeeded.
  match goal with |- context [if ?b then _ else _] => destruct b end; [done|].
  apply setStatus_frame.
Qed.

Lemma markServiceAsNotIdle_frame isc svc :
  let isc' := (IdleStatus.markServiceAsNotIdle isc svc).1 in
  gracePeriodQueue isc' = gracePeriodQueue isc ∧
  gracePeriod isc' = gracePeriod isc ∧
  handledErrors isc' = handledErrors isc.
Proof.
  unfold IdleStatus.markServiceAsNotIdle.
  destruct (kapi.Annotations svc) as [annotations|]; [|done].
  destruct (annotations !! StatusAnnotation) as [status|]; [|done].
  destruct (String.eqb status StatusNotIdle); [done|].
  destruct (String.eqb status StatusIdle); [done|].
  apply setStatus_frame.
Qed.

(** X14: the two conditional writers follow [GetIdleStatus].
    [markServiceAsIdleIfNeeded] does nothing when [GetIdleStatus] says
    [Idle] and otherwise asks the cluster to set [Idle];
    [markServiceAsNotIdle] does nothing when [GetIdleStatus] says [Idle]
    or [NotIdle].  Neither touches the delay queue. *)
Theorem status_writers_follow_GetIdleStatus isc svc :
  (GetIdleStatus svc = StatusIdle →
   IdleStatus.markServiceAsIdleIfNeeded isc svc = (isc, None)) ∧
  (GetIdleStatus svc ≠ StatusIdle →
   ∀ k err,
     SetAnnotationsOnService (kube isc) (kapi.Namespace svc) (kapi.Name svc)
                             {[StatusAnnotation := StatusIdle]} = (k, err) →
     IdleStatus.markServiceAsIdleIfNeeded isc svc =
       (IdleStatus.withKube isc k,
        ErrWrap "can't set service idle status to [Idle]" <$> err)) ∧
  (GetIdleStatus svc = StatusIdle ∨ GetIdleStatus svc = StatusNotIdle →
   IdleStatus.markServiceAsNotIdle isc svc = (isc, None)) ∧
  gracePeriodQueue (IdleStatus.markServiceAsIdleIfNeeded isc svc).1 = gracePeriodQueue isc ∧
  gracePeriodQueue (IdleStatus.markServiceAsNotIdle isc svc).1 = gracePeriodQueue isc.
Proof.
  split; [|split; [|split; [|split]]].
  - unfold GetIdleStatus, IdleStatus.markServiceAsIdleIfNeeded.
    destruct (kapi.Annotations svc) as [annotations|]; [|done].
    destruct (annotations !! StatusAnnotation) as [status|]; [|done].
    by intros ->.
  - unfold GetIdleStatus, IdleStatus.markServiceAsIdleIfNeeded.
    intros Hstatus k err Hreply.
    rewrite (setStatus_reply _ _ _ _ _ Hreply).
    destruct (kapi.Annotations svc) as [annotations|]; [|done].
    destruct (annotations !! StatusAnnotation) as [status|]; [|done].
    by destruct (String.eqb_spec status StatusIdle).
  - unfold GetIdleStatus, IdleStatus.markServiceAsNotIdle.
    destruct (kapi.Annotations svc) as [annotations|]; [|done].
    destruct (annotations !! StatusAnnotation) as [status|]; [|done].
    by intros [-> | ->].
  - apply markServiceAsIdleIfNeeded_frame.
  - apply markServiceAsNotIdle_frame.
Qed.

(** X15: once the new object carries the idle-request marker,
    [onServiceUpdate] does what [onServiceAdd] does on that object,
    whatever the old object was; an update between two objects without
    the marker, and an add of an object without it, leave the controller
    exactly as it was. *)
Theorem onServiceUpdate_as_add isc old new :
  (hasIdleAt (Some new) = true →
   IdleStatus.onServiceUpdate isc old new = IdleStatus.onServiceAdd isc new) ∧
  (hasIdleAt (Some old) = false → hasIdleAt (Some new) = false →
   IdleStatus.onServiceUpdate isc old new = isc) ∧
  (hasIdleAt (Some new) = false → IdleStatus.onServiceAdd isc new = isc).
Proof.
  unfold IdleStatus.onServiceUpdate, IdleStatus.onServiceAdd. split; [|split].
  - intros ->. by rewrite andb_false_r.
  - by intros -> ->.
  - by intros ->.
Qed.

(** X16: the registered handlers change the delay queue on one
    notification only, an update that takes the marker from true to
    false.  On every notification the configured grace period stays,
    and the errors reported so far stay, with at most new ones added
    behind them. *)
Theorem serviceHandler_schedules_on_unidle_only isc (n : Unidling.ServiceNotification) :
  gracePeriod (IdleStatus.serviceHandler isc n) = gracePeriod isc ∧
  (∃ es, handledErrors (IdleStatus.serviceHandler isc n) =
         (handledErrors isc ++ es)%list) ∧
  ((∀ old new, n = Unidling.NotifyUpdate old new →
               hasIdleAt (Some old) = false ∨ hasIdleAt (Some new) = true) →
   gracePeriodQueue (IdleStatus.serviceHandler isc n) = gracePeriodQueue isc).
Proof.
  assert (∀ svc,
            let isc' := IdleStatus.handled (IdleStatus.markServiceAsIdleIfNeeded isc svc) in
            gracePeriod isc' = gracePeriod isc ∧
            (∃ es, handledErrors isc' = (handledErrors isc ++ es)%list) ∧
            gracePeriodQueue isc' = gracePeriodQueue isc) as Hidle.
  { intros svc.
    destruct (handled_frame (IdleStatus.markServiceAsIdleIfNeeded isc svc))
      as (Hq & Hgp & _ & es & Herr).
    destruct (markServiceAsIdleIfNeeded_frame isc svc) as (Hq' & Hgp' & Herr').
    cbv zeta. rewrite Hq, Hgp, Herr, Hq', Hgp', Herr'. eauto. }
  assert (∀ isc0 : idleStatusController K,
            gracePeriod isc0 = gracePeriod isc0 ∧
            (∃ es, handledErrors isc0 = (handledErrors isc0 ++ es)%list) ∧
            gracePeriodQueue isc0 = gracePeriodQueue isc0) as Hsame.
  { intros isc0. split; [done|]. split; [|done]. exists []. by rewrite app_nil_r. }
  destruct n as [svc|old new|obj]; cbn [IdleStatus.serviceHandler].
  - unfold IdleStatus.onServiceAdd.
    destruct (hasIdleAt (Some svc)); simpl.
    + destruct (Hidle svc) as (? & ? & ?). auto.
    + destruct (Hsame isc) as (? & ? & ?). auto.
  - unfold IdleStatus.onServiceUpdate.
    destruct (hasIdleAt (Some old)) eqn:Hold, (hasIdleAt (Some new)) eqn:Hnew;
      cbn [andb negb].
    + destruct (Hidle new) as (? & ? & ?). auto.
    + destruct (handled_frame (IdleStatus.markServiceAsGracePeriod isc new))
        as (_ & Hgp & _ & es & Herr).
      rewrite Hgp, Herr.
      assert (gracePeriod (IdleStatus.markServiceAsGracePeriod isc new).1 = gracePeriod isc ∧
              handledErrors (IdleStatus.markServiceAsGracePeriod isc new).1
                = handledErrors isc) as [-> ->].
      { unfold IdleStatus.markServiceAsGracePeriod.
        destruct (setStatus_frame isc new StatusGracePeriod) as (_ & Hgp' & Herr').
        destruct (IdleStatus.setStatus isc new StatusGracePeriod) as [isc' [e|]];
          [done|].
        by destruct (MetaNamespaceKeyFunc new). }
      split; [done|]. split; [eauto|].
      intros Hn. destruct (Hn old new eq_refl); congruence.
    + destruct (Hidle new) as (? & ? & ?). auto.
    + destruct (Hsame isc) as (? & ? & ?). auto.
  - destruct (Hsame isc) as (? & ? & ?). auto.
Qed.

End IdleStatusEdges.

(** ** The grace-period worker *)

Section WorkerFacts.
Context {K : Type} `{!KubeInterface K} `{!ServiceLister K}.
Implicit Types (isc : idleStatusController K) (svc : kapi.Service)
               (q : workqueue.DelayingQueue).

Lemma withQueue_same isc : IdleStatus.withQueue isc (gracePeriodQueue isc) = isc.
Proof. by destruct isc. Qed.

(** Handling a key leaves the queue and the grace period alone. *)
Lemma processKey_frame isc (key : string) :
  let isc' := IdleStatus.handled (IdleStatus.processKey isc key) in
  gracePeriodQueue isc' = gracePeriodQueue isc ∧ gracePeriod isc' = gracePeriod isc.
Proof.
  cbv zeta.
  destruct (handled_frame (IdleStatus.processKey isc key)) as (-> & -> & _).
  unfold IdleStatus.processKey.
  destruct (SplitMetaNamespaceKey key) as [[namespace name]|e]; [|done].
  destruct (ServicesGet (kube isc) namespace name) as [service|e].
  - by destruct (markServiceAsNotIdle_frame isc service) as (-> & -> & _).
  - by destruct (IsNotFound e).
Qed.

(** X17: the edges of [processNextWorkItem].  On an empty queue it
    blocks, or, once the queue is shut down, returns false and changes
    nothing.  A key that does not split into namespace and name, and a
    lister failure other than not-found, are reported through
    [HandleError]; the cluster is not written to and the loop goes
    on. *)
Theorem processNextWorkItem_edges isc :
  (workqueue.queue (gracePeriodQueue isc) = [] →
   workqueue.shuttingDown (gracePeriodQueue isc) = false →
   IdleStatus.processNextWorkItem isc = None) ∧
  (workqueue.queue (gracePeriodQueue isc) = [] →
   workqueue.shuttingDown (gracePeriodQueue isc) = true →
   IdleStatus.processNextWorkItem isc = Some (isc, false)) ∧
  (∀ q key e,
     workqueue.Get (gracePeriodQueue isc) = Some (q, Some key, false) →
     SplitMetaNamespaceKey key = Err e →
     IdleStatus.processNextWorkItem isc =
       Some (mkISC (kube isc) q (gracePeriod isc) (handledErrors isc ++ [e]), true)) ∧
  (∀ q key namespace name e,
     workqueue.Get (gracePeriodQueue isc) = Some (q, Some key, false) →
     SplitMetaNamespaceKey key = Ok (namespace, name) →
     ServicesGet (kube isc) namespace name = Err e →
     IsNotFound e = false →
     IdleStatus.processNextWorkItem isc =
       Some (mkISC (kube isc) q (gracePeriod isc) (handledErrors isc ++ [e]), true)).
Proof.
  unfold IdleStatus.processNextWorkItem. split; [|split; [|split]].
  - intros Hempty Hup. unfold workqueue.Get. by rewrite Hempty, Hup.
  - intros Hempty Hdown. unfold workqueue.Get. rewrite Hempty, Hdown.
    simpl. by rewrite withQueue_same.
  - intros q key e -> Hsplit. simpl. unfold IdleStatus.processKey.
    by rewrite Hsplit.
  - intros q key namespace name e -> Hsplit Hget Hother. simpl.
    unfold IdleStatus.processKey. rewrite Hsplit. simpl.
    by rewrite Hget, Hother.
Qed.

(** X18: [processNextWorkItem] never marks a key as done.  After it has
    handled a key, the key stays in the queue's processing set, and
    adding the same key again, which is what a later grace timer for the
    same service does when it fires, does not make it ready: the list
    [Get] serves from is unchanged. *)
Theorem processed_key_is_not_requeued isc q (key : string) :
  workqueue.Get (gracePeriodQueue isc) = Some (q, Some key, false) →
  ∃ isc',
    IdleStatus.processNextWorkItem isc = Some (isc', true) ∧
    key ∈ workqueue.processing (gracePeriodQueue isc') ∧
    workqueue.queue (workqueue.Add (gracePeriodQueue isc') key) =
      workqueue.queue (gracePeriodQueue isc').
Proof.
  intros Hget. unfold IdleStatus.processNextWorkItem. rewrite Hget. simpl.
  eexists. split; [reflexivity|].
  destruct (processKey_frame (IdleStatus.withQueue isc q) key) as [-> _]. simpl.
  unfold workqueue.Get in Hget.
  destruct (workqueue.queue (gracePeriodQueue isc)) as [|item rest];
    [by destruct (workqueue.shuttingDown _)|].
  injection Hget as <- <-. simpl. split; [set_solver|].
  unfold workqueue.Add. simpl.
  destruct (workqueue.shuttingDown (gracePeriodQueue isc)); [done|].
  destruct (decide (item ∈ _)); [done|].
  rewrite decide_True by set_solver. done.
Qed.

(** What one iteration does to the queue. *)
Lemma processNextWorkItem_queue isc :
  (workqueue.queue (gracePeriodQueue isc) = [] →
   IdleStatus.processNextWorkItem isc =
     if workqueue.shuttingDown (gracePeriodQueue isc) then Some (isc, false) else None) ∧
  ∀ isc', IdleStatus.processNextWorkItem isc = Some (isc', true) →
    workqueue.queue (gracePeriodQueue isc') = tail (workqueue.queue (gracePeriodQueue isc)) ∧
    workqueue.shuttingDown (gracePeriodQueue isc') =
      workqueue.shuttingDown (gracePeriodQueue isc) ∧
    workqueue.waitingForAdd (gracePeriodQueue isc') =
      workqueue.waitingForAdd (gracePeriodQueue isc) ∧
    gracePeriod isc' = gracePeriod isc.
Proof.
  unfold IdleStatus.processNextWorkItem, workqueue.Get.
  destruct (workqueue.queue (gracePeriodQueue isc)) as [|item rest] eqn:Hqueue.
  - destruct (workqueue.shuttingDown (gracePeriodQueue isc)); simpl;
      [|by split]. rewrite withQueue_same. by split.
  - split; [done|]. simpl. intros isc' [= <-].
    match goal with
    | |- context [IdleStatus.processKey ?i ?k] =>
        destruct (processKey_frame i k) as [-> ->]
    end.
    done.
Qed.

(** X19: the loop of [worker] comes to an end.  Given more iterations
    than there are ready keys, it handles every ready key and then stops
    on the empty queue: it has returned if the queue is shut down and
    waits in [Get] otherwise.  Handling the keys puts nothing back on
    the queue and schedules nothing. *)
Theorem worker_drains (fuel : nat) isc :
  length (workqueue.queue (gracePeriodQueue isc)) < fuel →
  let r := IdleStatus.worker fuel isc in
  workqueue.queue (gracePeriodQueue r.1) = [] ∧
  r.2 = (if workqueue.shuttingDown (gracePeriodQueue isc)
         then IdleStatus.Returned else IdleStatus.Blocked) ∧
  workqueue.waitingForAdd (gracePeriodQueue r.1) =
    workqueue.waitingForAdd (gracePeriodQueue isc) ∧
  gracePeriod r.1 = gracePeriod isc.
Proof.
  revert isc. induction fuel as [|fuel IH]; intros isc Hfuel; [lia|].
  cbv zeta. cbn [IdleStatus.worker].
  destruct (processNextWorkItem_queue isc) as [Hempty Hstep].
  destruct (workqueue.queue (gracePeriodQueue isc)) as [|item rest] eqn:Hqueue.
  - rewrite (Hempty eq_refl).
    destruct (workqueue.shuttingDown (gracePeriodQueue isc)); by simpl.
  - assert (∃ isc', IdleStatus.processNextWorkItem isc = Some (isc', true))
      as [isc' Hsome].
    { unfold IdleStatus.processNextWorkItem, workqueue.Get. rewrite Hqueue.
      simpl. eauto. }
    rewrite Hsome.
    destruct (Hstep isc' Hsome) as (Hrest & Hdown & Hwaiting & Hgp).
    simpl in Hrest, Hfuel.
    destruct (IH isc' ltac:(rewrite Hrest; lia)) as (Hq & Hout & Hw & Hg).
    by rewrite Hq, Hout, Hw, Hg, Hdown, Hwaiting, Hgp.
Qed.

(** X20: the key [markServiceAsGracePeriod] puts on the delay queue
    leads back to the service.  For a service whose namespace and name
    hold no slash, once the write of [GracePeriod] has succeeded the
    queue holds a key that [SplitMetaNamespaceKey] splits into that
    namespace and name, so that on release the lister is asked for this
    very service. *)
Theorem scheduled_key_names_the_service isc svc (k : K) :
  no_slash (kapi.Namespace svc) = true →
  no_slash (kapi.Name svc) = true →
  SetAnnotationsOnService (kube isc) (kapi.Namespace svc) (kapi.Name svc)
                          {[StatusAnnotation := StatusGracePeriod]} = (k, None) →
  ∃ key,
    IdleStatus.markServiceAsGracePeriod isc svc =
      (mkISC k (workqueue.AddAfter (gracePeriodQueue isc) key (gracePeriod isc))
             (gracePeriod isc) (handledErrors isc), None) ∧
    SplitMetaNamespaceKey key = Ok (kapi.Namespace svc, kapi.Name svc) ∧
    ∀ isc' : idleStatusController K,
      IdleStatus.processKey isc' key =
        match ServicesGet (kube isc') (kapi.Namespace svc) (kapi.Name svc) with
        | Ok service => IdleStatus.markServiceAsNotIdle isc' service
        | Err err => if IsNotFound err then (isc', None) else (isc', Some err)
        end.
Proof.
  intros Hns Hname Hreply.
  pose proof (MetaNamespaceKeyFunc_key svc) as Hkey.
  pose proof (SplitMetaNamespaceKey_key svc _ Hns Hname Hkey) as Hsplit.
  eexists. split; [|split; [exact Hsplit|]].
  - unfold IdleStatus.markServiceAsGracePeriod.
    by rewrite (setStatus_reply _ _ _ _ _ Hreply), Hkey.
  - intros isc'. unfold IdleStatus.processKey. by rewrite Hsplit.
Qed.

End WorkerFacts.

(** ** What reaches the cluster *)

Section WrittenAnnotations.
Implicit Types (isc : idleStatusController MemCluster) (svc : kapi.Service).

Lemma mem_SetAnnotations_calls (c : MemCluster) (namespace name : string)
    (annotations : gmap string string) :
  calls (mem_SetAnnotations c namespace name annotations).1 =
    (calls c ++ [(mkNamespacedName namespace name, annotations)])%list.
Proof.
  unfold mem_SetAnnotations.
  destruct (outage c); [done|]. by destruct (objects c !! _).
Qed.

Lemma setStatus_calls isc svc (status : string) :
  calls (kube (IdleStatus.setStatus isc svc status).1) =
    (calls (kube isc) ++ [(refOf svc, {[StatusAnnotation := status]})])%list.
Proof.
  unfold IdleStatus.setStatus.
  pose proof (mem_SetAnnotations_calls (kube isc) (kapi.Namespace svc) (kapi.Name svc)
                {[StatusAnnotation := status]}) as Hcalls.
  simpl. by destruct (mem_SetAnnotations _ _ _ _).
Qed.

(** X21: the idle-status controller writes one annotation only.  Each
    registered handler asks the cluster for at most one write per
    notification, and each iteration of the worker for at most one; the
    write names the status annotation alone, with [Idle] or
    [GracePeriod] from a handler and [NotIdle] from the worker.  It
    never removes an annotation and never writes another key. *)
Theorem only_the_status_is_written isc :
  (∀ n, calls (kube (IdleStatus.serviceHandler isc n)) = calls (kube isc) ∨
        ∃ ref status,
          (status = StatusIdle ∨ status = StatusGracePeriod) ∧
          calls (kube (IdleStatus.serviceHandler isc n)) =
            (calls (kube isc) ++ [(ref, {[StatusAnnotation := status]})])%list) ∧
  (∀ isc' more,
     IdleStatus.processNextWorkItem isc = Some (isc', more) →
     calls (kube isc') = calls (kube isc) ∨
     ∃ ref, calls (kube isc') =
              (calls (kube isc) ++ [(ref, {[StatusAnnotation := StatusNotIdle]})])%list).
Proof.
  assert (∀ svc,
            let isc' := IdleStatus.handled (IdleStatus.markServiceAsIdleIfNeeded isc svc) in
            calls (kube isc') = calls (kube isc) ∨
            ∃ ref status,
              (status = StatusIdle ∨ status = StatusGracePeriod) ∧
              calls (kube isc') =
                (calls (kube isc) ++ [(ref, {[StatusAnnotation := status]})])%list) as Hidle.
  { intros svc. cbv zeta. rewrite handled_kube.
    unfold IdleStatus.markServiceAsIdleIfNeeded.
    match goal with |- context [if ?b then _ else _] => destruct b end; [by left|].
    right. exists (refOf svc), StatusIdle. split; [by left|]. apply setStatus_calls. }
  split.
  - intros [svc|old new|obj]; cbn [IdleStatus.serviceHandler].
    + unfold IdleStatus.onServiceAdd.
      destruct (hasIdleAt (Some svc)); cbn [negb]; [apply Hidle|by left].
    + unfold IdleStatus.onServiceUpdate.
      destruct (hasIdleAt (Some old) && negb (hasIdleAt (Some new))).
      * right. exists (refOf new), StatusGracePeriod. split; [by right|].
        rewrite handled_kube. unfold IdleStatus.markServiceAsGracePeriod.
        pose proof (setStatus_calls isc new StatusGracePeriod) as Hcalls.
        destruct (IdleStatus.setStatus isc new StatusGracePeriod) as [isc1 [e|]];
          [done|].
        by destruct (MetaNamespaceKeyFunc new).
      * destruct (hasIdleAt (Some new)); [apply Hidle|by left].
    + by left.
  - intros isc' more. unfold IdleStatus.processNextWorkItem.
    destruct (workqueue.Get (gracePeriodQueue isc)) as [[[q item] shutdown]|]; [|done].
    destruct shutdown; intros [= <- <-]; [by left|].
    rewrite handled_kube. unfold IdleStatus.processKey.
    destruct (SplitMetaNamespaceKey _) as [[namespace name]|e]; [|by left].
    simpl. destruct (mem_ServicesGet (kube isc) namespace name) as [service|e];
      [|by destruct (IsNotFound e); left].
    unfold IdleStatus.markServiceAsNotIdle.
    destruct (kapi.Annotations service) as [annotations|]; [|by left].
    destruct (annotations !! StatusAnnotation) as [status|]; [|by left].
    destruct (String.eqb status StatusNotIdle); [by left|].
    destruct (String.eqb status StatusIdle); [by left|].
    right. exists (refOf service).
    apply (setStatus_calls (IdleStatus.withQueue isc q) service StatusNotIdle).
Qed.

(** X22: on a cluster that is up and holds the service, [onServiceAdd]
    and [onServiceUpdate] of an object that carries the idle-request
    marker leave the stored status at [Idle], whatever it was, and
    schedule no timer. *)
Theorem idled_service_is_stored_Idle isc (old svc : kapi.Service) :
  outage (kube isc) = false →
  objects (kube isc) !! refOf svc = Some svc →
  hasIdleAt (Some svc) = true →
  storedStatus (kube (IdleStatus.onServiceAdd isc svc))
               (kapi.Namespace svc) (kapi.Name svc) = Some StatusIdle ∧
  storedStatus (kube (IdleStatus.onServiceUpdate isc old svc))
               (kapi.Namespace svc) (kapi.Name svc) = Some StatusIdle ∧
  gracePeriodQueue (IdleStatus.onServiceAdd isc svc) = gracePeriodQueue isc ∧
  gracePeriodQueue (IdleStatus.onServiceUpdate isc old svc) = gracePeriodQueue isc.
Proof.
  intros Hup Hstored Hmarker.
  assert (IdleStatus.onServiceUpdate isc old svc = IdleStatus.onServiceAdd isc svc)
    as ->.
  { unfold IdleStatus.onServiceUpdate, IdleStatus.onServiceAdd.
    by rewrite Hmarker, andb_false_r. }
  unfold IdleStatus.onServiceAdd. rewrite Hmarker. cbn [negb].
  pose proof (markServiceAsIdleIfNeeded_stored isc svc Hup Hstored) as Hidle.
  destruct (handled_frame (IdleStatus.markServiceAsIdleIfNeeded isc svc))
    as (Hq & _).
  destruct (markServiceAsIdleIfNeeded_frame isc svc) as (Hq' & _).
  by rewrite Hq, Hq'.
Qed.

End WrittenAnnotations.

(** *** Instances of the further properties *)

Lemma idled_service_is_stored_Idle_witness :
  storedStatus
    (kube (IdleStatus.onServiceAdd
             (Sample.controllerOn (Sample.clusterWith (Sample.idled StatusNotIdle) false)
                                  workqueue.NewDelayingQueue)
             (Sample.idled StatusNotIdle)))
    "ns" "svc" = Some StatusIdle.
Proof.
  apply (proj1 (idled_service_is_stored_Idle
                  (Sample.controllerOn
                     (Sample.clusterWith (Sample.idled StatusNotIdle) false)
                     workqueue.NewDelayingQueue)
                  Sample.bare (Sample.idled StatusNotIdle)
                  eq_refl ltac:(vm_compute; reflexivity) ltac:(vm_compute; reflexivity))).
Defined.

Lemma processed_key_is_not_requeued_witness :
  ∃ isc',
    IdleStatus.processNextWorkItem
      (Sample.controllerOn (Sample.clusterWith (Sample.unidled StatusGracePeriod) false)
                           Sample.expired) = Some (isc', true) ∧
    workqueue.queue (workqueue.Add (gracePeriodQueue isc') "ns/svc") = [].
Proof.
  destruct (@processed_key_is_not_requeued MemCluster MemCluster_kube MemCluster_lister
              (Sample.controllerOn
                 (Sample.clusterWith (Sample.unidled StatusGracePeriod) false)
                 Sample.expired)
              _ "ns/svc" ltac:(vm_compute; reflexivity))
    as (isc' & Hstep & _ & Hqueue).
  exists isc'. split; [exact Hstep|]. rewrite Hqueue.
  revert Hstep. vm_compute. by intros [= <-].
Defined.

Lemma worker_drains_witness :
  (IdleStatus.worker 2
     (Sample.controllerOn (Sample.clusterWith (Sample.unidled StatusGracePeriod) false)
                          Sample.expired)).2 = IdleStatus.Blocked.
Proof.
  apply (proj1 (proj2 (@worker_drains MemCluster MemCluster_kube MemCluster_lister 2
                         (Sample.controllerOn
                            (Sample.clusterWith (Sample.unidled StatusGracePeriod) false)
                            Sample.expired)
                         ltac:(vm_compute; lia)))).
Defined.

Lemma scheduled_key_names_the_service_witness :
  ∃ key,
    workqueue.waitingForAdd
      (gracePeriodQueue
         (IdleStatus.markServiceAsGracePeriod
            (Sample.controllerOn (Sample.clusterWith (Sample.unidled StatusIdle) false)
                                 workqueue.NewDelayingQueue)
            (Sample.unidled StatusIdle)).1) = [(key, GracePeriodDuration)] ∧
    SplitMetaNamespaceKey key = Ok ("ns", "svc").
Proof.
  destruct (@scheduled_key_names_the_service MemCluster MemCluster_kube MemCluster_lister
              (Sample.controllerOn (Sample.clusterWith (Sample.unidled StatusIdle) false)
                                   workqueue.NewDelayingQueue)
              (Sample.unidled StatusIdle) _ eq_refl eq_refl
              ltac:(vm_compute; reflexivity))
    as (key & Hmark & Hsplit & _).
  exists key. rewrite Hmark. split; [reflexivity|exact Hsplit].
Defined.

Lemma processNextWorkItem_edges_witness :
  IdleStatus.processNextWorkItem
    (Sample.controllerOn (Sample.clusterWith Sample.bare false) workqueue.NewDelayingQueue)
  = None.
Proof.
  apply (proj1 (@processNextWorkItem_edges MemCluster MemCluster_kube MemCluster_lister
                  (Sample.controllerOn (Sample.clusterWith Sample.bare false)
                                       workqueue.NewDelayingQueue))
               eq_refl eq_refl).
Defined.

Lemma status_writers_follow_GetIdleStatus_witness :
  IdleStatus.markServiceAsIdleIfNeeded
    (Sample.controllerOn (Sample.clusterWith (Sample.idled StatusIdle) false)
                         workqueue.NewDelayingQueue)
    (Sample.idled StatusIdle)
  = (Sample.controllerOn (Sample.clusterWith (Sample.idled StatusIdle) false)
                         workqueue.NewDelayingQueue, None).
Proof.
  apply (proj1 (@status_writers_follow_GetIdleStatus MemCluster MemCluster_kube _ _)).
  vm_compute. reflexivity.
Defined.

Lemma onServiceUpdate_as_add_witness :
  IdleStatus.onServiceUpdate
    (Sample.controllerOn (Sample.clusterWith Sample.bare false) workqueue.NewDelayingQueue)
    Sample.bare (Sample.unidled StatusNotIdle)
  = Sample.controllerOn (Sample.clusterWith Sample.bare false) workqueue.NewDelayingQueue.
Proof.
  apply (proj1 (proj2 (@onServiceUpdate_as_add MemCluster MemCluster_kube _ _ _)));
    vm_compute; reflexivity.
Defined.
